(** * NEXTLEVEL chat client: the readout renderer and its collaborators

    A shallow embedding of the parts of [src/App.tsx] (component
    [RoboticReadout], handler [startQuiz]) and of the solver service
    ([tryLocalScientificEvaluation], [solveMathProblem]) that the
    specification talks about, followed by the properties of the
    specification stated over that embedding.

    Strings are JavaScript strings: finite sequences of UTF-16 code units.
    The built-ins the source calls ([split], [trim], [includes], regular
    expressions, ...) are modelled once, in module [Js], and the source
    functions are then transcribed on top of them. *)

From Stdlib Require Import List NArith Bool Arith Lia Ascii.
From Stdlib Require String.
Import ListNotations String.StringSyntax.

#[local] Delimit Scope string_scope with string.

Set Implicit Arguments.

(* ================================================================== *)
(** * JavaScript strings *)
(* ================================================================== *)

Module Js.

(** A code unit and a string of them. *)
Definition char := N.
Definition str := list char.

(** A string literal of the source, read as code units (the literals used
    below are all in the Basic Latin range, one code unit per character). *)
Definition lit (s : String.string) : str :=
  map N_of_ascii (String.list_ascii_of_string s).
Arguments lit s%_string.

Definition ch (a : ascii) : char := N_of_ascii a.
Arguments ch a%_char.

Definition char_eqb : char -> char -> bool := N.eqb.

Fixpoint str_eqb (s t : str) : bool :=
  match s, t with
  | [], [] => true
  | c :: s', d :: t' => char_eqb c d && str_eqb s' t'
  | _, _ => false
  end.

Definition is_empty (s : str) : bool :=
  match s with [] => true | _ :: _ => false end.

(** ** Character classes of ECMAScript *)

(** [WhiteSpace] and [LineTerminator] code units: what [\s] matches and what
    [String.prototype.trim] strips. *)
Definition isWhiteSpace (c : char) : bool :=
  ((9 <=? c) && (c <=? 13)                (* TAB LF VT FF CR *)
   || (c =? 32) || (c =? 160)             (* SP, NBSP *)
   || (c =? 5760)                         (* U+1680 *)
   || ((8192 <=? c) && (c <=? 8202))      (* U+2000 .. U+200A *)
   || (c =? 8232) || (c =? 8233)          (* LS, PS *)
   || (c =? 8239) || (c =? 8287)          (* U+202F, U+205F *)
   || (c =? 12288) || (c =? 65279))%N.    (* U+3000, U+FEFF *)

(** Code units the pattern [.] refuses (no [s] flag anywhere in the source). *)
Definition isLineTerminator (c : char) : bool :=
  ((c =? 10) || (c =? 13) || (c =? 8232) || (c =? 8233))%N.

Definition dot (c : char) : bool := negb (isLineTerminator c).

(** [\w]: what [\b] is defined from. *)
Definition isWordChar (c : char) : bool :=
  (((48 <=? c) && (c <=? 57)) || ((65 <=? c) && (c <=? 90))
   || ((97 <=? c) && (c <=? 122)) || (c =? 95))%N.

Definition isChar (a : ascii) (c : char) : bool := char_eqb c (ch a).
Arguments isChar a%_char c.

(** ** String.prototype methods *)

Fixpoint dropWhile (p : char -> bool) (s : str) : str :=
  match s with
  | [] => []
  | c :: s' => if p c then dropWhile p s' else s
  end.

Definition trimStart (s : str) : str := dropWhile isWhiteSpace s.
Definition trimEnd (s : str) : str := rev (dropWhile isWhiteSpace (rev s)).
Definition trim (s : str) : str := trimEnd (trimStart s).

Fixpoint startsWith (s prefix : str) {struct prefix} : bool :=
  match prefix, s with
  | [], _ => true
  | p :: prefix', c :: s' => char_eqb c p && startsWith s' prefix'
  | _ :: _, [] => false
  end.

Definition endsWith (s suffix : str) : bool := startsWith (rev s) (rev suffix).

(** [s.includes(t)]: [t] occurs at some index of [s]. *)
Fixpoint includes (s t : str) : bool :=
  startsWith s t ||
  match s with
  | [] => false
  | _ :: s' => includes s' t
  end.

(** [s.slice(1, -1)]. *)
Definition slice_1_m1 (s : str) : str := removelast (tl s).

(** [s.split(sep)] for a separator of one code unit. *)
Fixpoint split (sep : char) (s : str) : list str :=
  match s with
  | [] => [[]]
  | c :: s' =>
      if char_eqb c sep then [] :: split sep s'
      else match split sep s' with
           | [] => [[c]]
           | piece :: pieces => (c :: piece) :: pieces
           end
  end.

(** [pieces.join(sep)]. *)
Fixpoint join (sep : str) (pieces : list str) : str :=
  match pieces with
  | [] => []
  | [p] => p
  | p :: ps => p ++ sep ++ join sep ps
  end.

(** [arr.filter((_, i, arr) => f(i, arr.length))]. *)
Fixpoint filter_from {A} (f : nat -> nat -> bool) (i n : nat) (l : list A) : list A :=
  match l with
  | [] => []
  | x :: l' => if f i n then x :: filter_from f (S i) n l' else filter_from f (S i) n l'
  end.

Definition filter_index {A} (f : nat -> nat -> bool) (l : list A) : list A :=
  filter_from f 0 (length l) l.

Definition toLowerUnit (c : char) : char :=
  if ((65 <=? c) && (c <=? 90))%N then (c + 32)%N else c.

End Js.

Import Js.

(* ================================================================== *)
(** * Regular expressions *)
(* ================================================================== *)

(** The patterns of the source are sequences of single characters, character
    classes under a quantifier, and assertions; there is no alternation and
    the only group encloses a whole pattern.  [run] is the backtracking
    matcher of ECMAScript on that fragment: it returns the number of code
    units consumed by the first match in priority order. *)

Module Re.

Inductive atom : Type :=
  | Cls (p : char -> bool)        (* one code unit of a class *)
  | Star (p : char -> bool)       (* [p*], greedy *)
  | LazyStar (p : char -> bool)   (* [p*?] *)
  | Opt (p : char -> bool)        (* [p?], greedy *)
  | Bos                           (* [^], no [m] flag *)
  | Eos                           (* [$], no [m] flag *)
  | WordB.                        (* [\b] *)

Definition pattern := list atom.

(** [p+] and a literal. *)
Definition Plus (p : char -> bool) : pattern := [Cls p; Star p].
Definition Lit (s : str) : pattern := map (fun c => Cls (char_eqb c)) s.

Definition wordOpt (c : option char) : bool :=
  match c with Some c => isWordChar c | None => false end.

(** [prev] is the code unit before the current position, [None] at index 0. *)
Fixpoint run (pat : pattern) (prev : option char) (s : str) {struct pat} : option nat :=
  match pat with
  | [] => Some 0
  | Cls p :: pat' =>
      match s with
      | c :: s' => if p c then option_map S (run pat' (Some c) s') else None
      | [] => None
      end
  | Star p :: pat' =>
      (fix loop (prev : option char) (s : str) {struct s} : option nat :=
         match s with
         | c :: s' =>
             if p c then
               match loop (Some c) s' with
               | Some n => Some (S n)
               | None => run pat' prev s
               end
             else run pat' prev s
         | [] => run pat' prev []
         end) prev s
  | LazyStar p :: pat' =>
      (fix loop (prev : option char) (s : str) {struct s} : option nat :=
         match run pat' prev s with
         | Some n => Some n
         | None =>
             match s with
             | c :: s' => if p c then option_map S (loop (Some c) s') else None
             | [] => None
             end
         end) prev s
  | Opt p :: pat' =>
      match s with
      | c :: s' =>
          if p c then
            match run pat' (Some c) s' with
            | Some n => Some (S n)
            | None => run pat' prev s
            end
          else run pat' prev s
      | [] => run pat' prev []
      end
  | Bos :: pat' =>
      match prev with
      | None => run pat' prev s
      | Some _ => None
      end
  | Eos :: pat' =>
      match s with
      | [] => run pat' prev s
      | _ :: _ => None
      end
  | WordB :: pat' =>
      if xorb (wordOpt prev) (wordOpt (hd_error s)) then run pat' prev s else None
  end.

(** The leftmost match: its index and its length. *)
Fixpoint search (pat : pattern) (prev : option char) (s : str) : option (nat * nat) :=
  match run pat prev s with
  | Some n => Some (0, n)
  | None =>
      match s with
      | [] => None
      | c :: s' =>
          match search pat (Some c) s' with
          | Some (i, n) => Some (S i, n)
          | None => None
          end
      end
  end.

(** [re.test(s)] and the truth value of [s.match(re)] for a pattern without
    the [g] flag. *)
Definition test (pat : pattern) (s : str) : bool :=
  match search pat None s with Some _ => true | None => false end.

(** [s.replace(re, repl)] with the [g] flag.  [skip] counts the code units of
    the current match that are still to be passed over. *)
Fixpoint replace_from (pat : pattern) (repl : str) (skip : nat)
    (prev : option char) (s : str) : str :=
  match skip with
  | S k =>
      match s with
      | [] => []
      | c :: s' => replace_from pat repl k (Some c) s'
      end
  | 0 =>
      match run pat prev s with
      | Some (S k) =>
          repl ++ match s with
                  | [] => []
                  | c :: s' => replace_from pat repl k (Some c) s'
                  end
      | Some 0 =>
          repl ++ match s with
                  | [] => []
                  | c :: s' => c :: replace_from pat repl 0 (Some c) s'
                  end
      | None =>
          match s with
          | [] => []
          | c :: s' => c :: replace_from pat repl 0 (Some c) s'
          end
      end
  end.

Definition replaceAll (pat : pattern) (repl : str) (s : str) : str :=
  replace_from pat repl 0 None s.

(** [s.replace(re, repl)] without the [g] flag: the leftmost match only. *)
Definition replaceFirst (pat : pattern) (repl : str) (s : str) : str :=
  match search pat None s with
  | Some (i, n) => firstn i s ++ repl ++ skipn (i + n) s
  | None => s
  end.

(** [s.split(/(pat)/)]: the pieces between the matches, each match (the
    capture of the one group) between its neighbours.  [cur] is the piece
    being read, in reverse; an empty match at the start of a piece does not
    split. *)
Fixpoint split_from (pat : pattern) (skip : nat) (cur : str)
    (prev : option char) (s : str) : list str :=
  match s with
  | [] => [rev cur]
  | c :: s' =>
      match skip with
      | S k => split_from pat k cur (Some c) s'
      | 0 =>
          match run pat prev s with
          | Some (S k) => rev cur :: firstn (S k) s :: split_from pat k [] (Some c) s'
          | Some 0 =>
              match cur with
              | [] => split_from pat 0 [c] (Some c) s'
              | _ :: _ => rev cur :: [] :: split_from pat 0 [c] (Some c) s'
              end
          | None => split_from pat 0 (c :: cur) (Some c) s'
          end
      end
  end.

Definition splitCapture (pat : pattern) (s : str) : list str :=
  match s with
  | [] => match run pat None [] with Some _ => [] | None => [[]] end
  | _ :: _ => split_from pat 0 [] None s
  end.

End Re.

(* ================================================================== *)
(** * The readout component ([RoboticReadout] in [src/App.tsx]) *)
(* ================================================================== *)

Module Readout.

Import Re.

(** ** Block segmenter (the first effect of the component) *)

(** [{ type: 'text' | 'table', content: string | string[][] }] *)
Inductive ContentBlock : Type :=
  | Text (line : str)
  | Table (rows : list (list str)).

(** [/^[\s]*\|.*\|[\s]*$/] *)
Definition tableRowRe : pattern :=
  [Bos; Star isWhiteSpace; Cls (isChar "|"); Star dot; Cls (isChar "|");
   Star isWhiteSpace; Eos].

(** [/^[| \-:]+$/] *)
Definition separatorClass (c : char) : bool :=
  isChar "|" c || isChar " " c || isChar "-" c || isChar ":" c.

Definition separatorRe : pattern := Bos :: Plus separatorClass ++ [Eos].

(** [/^[\s]*\|.*\|[\s]*$/.test(line) && line.includes('|')] *)
Definition isTableRow (line : str) : bool :=
  test tableRowRe line && includes line (lit "|").

(** [line.trim().match(/^[| \-:]+$/)], as a truth value *)
Definition isSeparatorRow (line : str) : bool :=
  test separatorRe (trim line).

(** [line.split('|').filter((_, i, arr) => i > 0 && i < arr.length - 1)
        .map(c => c.trim())] *)
Definition rowCells (line : str) : list str :=
  map trim
    (filter_index (fun i n => (0 <? i) && (i <? n - 1)) (split (ch "|") line)).

(** The variables the [forEach] callback closes over. *)
Record SegState : Type := mkSeg {
  blocks : list ContentBlock;
  currentTable : list (list str)
}.

(** [if (currentTable.length > 0) { blocks.push({type:'table', ...});
     currentTable = []; }] *)
Definition flushTable (st : SegState) : SegState :=
  if 0 <? length (currentTable st)
  then mkSeg (blocks st ++ [Table (currentTable st)]) []
  else st.

(** The body of the [forEach] callback. *)
Definition segmentLine (st : SegState) (line : str) : SegState :=
  if isTableRow line then
    if isSeparatorRow line then st
    else
      let cells := rowCells line in
      if 0 <? length cells
      then mkSeg (blocks st) (currentTable st ++ [cells])
      else st
  else
    let st := flushTable st in
    if negb (str_eqb (trim line) [])
    then mkSeg (blocks st ++ [Text line]) (currentTable st)
    else st.

Definition segmentLines (lines : list str) : list ContentBlock :=
  blocks (flushTable (fold_left segmentLine lines (mkSeg [] []))).

(** What the effect hands to [setContentBlocks]. *)
Definition segment (text : str) : list ContentBlock :=
  segmentLines (split (ch "010") text).

(** ** Progressive revealer (the second effect and its timer) *)

(** The component between two events: its prop, its two state cells, the
    host's table of timeouts that are set and neither fired nor cleared, and
    the handle held by the cleanup closure of the last run of the second
    effect. *)
Record Component : Type := mkComponent {
  text : str;
  contentBlocks : list ContentBlock;
  visibleBlockCount : nat;
  timers : list nat;
  cleanup : option nat;
  nextHandle : nat
}.

Definition clearTimeout (h : nat) (table : list nat) : list nat :=
  filter (fun k => negb (k =? h)) table.

(** The state updates queued by the first effect, applied:
    [setContentBlocks(blocks); setVisibleBlockCount(0)]. *)
Definition rebuild (c : Component) : Component :=
  mkComponent (text c) (segment (text c)) 0 (timers c) (cleanup c) (nextHandle c).

(** A run of the second effect, after the cleanup of its previous run:
    [if (visibleBlockCount < contentBlocks.length) { const timer =
     setTimeout(..., 30); return () => clearTimeout(timer); }]. *)
Definition revealEffect (c : Component) : Component :=
  let table :=
    match cleanup c with
    | Some h => clearTimeout h (timers c)
    | None => timers c
    end in
  if visibleBlockCount c <? length (contentBlocks c)
  then mkComponent (text c) (contentBlocks c) (visibleBlockCount c)
         (table ++ [nextHandle c]) (Some (nextHandle c)) (S (nextHandle c))
  else mkComponent (text c) (contentBlocks c) (visibleBlockCount c)
         table None (nextHandle c).

(** First render with [useState([])] and [useState(0)]: both effects run on
    the initial state, then the queued updates are applied and the second
    effect runs again because [contentBlocks] is a new array. *)
Definition mount (t : str) : Component :=
  revealEffect (rebuild (revealEffect (mkComponent t [] 0 [] None 0))).

(** The parent passes a new [text]: the first effect runs when the
    dependency [text] changed, and the second one after the re-render. *)
Definition setText (t : str) (c : Component) : Component :=
  if str_eqb t (text c) then c
  else revealEffect
         (rebuild (mkComponent t (contentBlocks c) (visibleBlockCount c)
                     (timers c) (cleanup c) (nextHandle c))).

(** The host runs the callback of timeout [h]:
    [setVisibleBlockCount(v => v + 1)], re-render, second effect. *)
Definition fire (h : nat) (c : Component) : Component :=
  if existsb (Nat.eqb h) (timers c)
  then revealEffect
         (mkComponent (text c) (contentBlocks c) (S (visibleBlockCount c))
            (clearTimeout h (timers c)) (cleanup c) (nextHandle c))
  else c.

(** One tick of the host clock: the oldest pending timeout, if any, fires. *)
Definition tick (c : Component) : Component :=
  match timers c with
  | h :: _ => fire h c
  | [] => c
  end.

Inductive Event : Type :=
  | NewText (t : str)
  | Tick.

Definition handle (c : Component) (e : Event) : Component :=
  match e with
  | NewText t => setText t c
  | Tick => tick c
  end.

(** [contentBlocks.slice(0, visibleBlockCount)] *)
Definition visibleBlocks (c : Component) : list ContentBlock :=
  firstn (visibleBlockCount c) (contentBlocks c).

(** ** Math fragment renderer ([renderTextWithMath]) *)

(** A call either returns or throws. *)
Inductive Outcome (A : Type) : Type :=
  | Returned (a : A)
  | Raised (e : str).
Arguments Raised {A} e.

Definition bind {A B} (m : Outcome A) (k : A -> Outcome B) : Outcome B :=
  match m with
  | Returned a => k a
  | Raised e => Raised e
  end.

(** [try { body } catch (e) { handler(e) }] *)
Definition tryCatch {A} (body : Outcome A) (handler : str -> Outcome A) : Outcome A :=
  match body with
  | Returned a => Returned a
  | Raised e => handler e
  end.

(** [arr.map(f)] for a callback that may throw. *)
Fixpoint mapM {A B} (f : A -> Outcome B) (l : list A) : Outcome (list B) :=
  match l with
  | [] => Returned []
  | x :: l' => bind (f x) (fun y => bind (mapM f l') (fun ys => Returned (y :: ys)))
  end.

(** The three [<span>] elements the renderer builds. *)
Inductive Span : Type :=
  | Typeset (html : str)     (* [dangerouslySetInnerHTML], KaTeX markup *)
  | Flagged (part : str)     (* [className="text-red-400"] *)
  | Plain (part : str).

(** [/(\$.*?\$)/g] *)
Definition mathRe : pattern := [Cls (isChar "$"); LazyStar dot; Cls (isChar "$")].

Section Renderer.

(** [katex.renderToString(math, { throwOnError: false, displayMode: false })] *)
Variable renderToString : str -> Outcome str.

Definition isMathPart (part : str) : bool :=
  startsWith part (lit "$") && endsWith part (lit "$").

(** The callback of [parts.map]. *)
Definition renderPart (part : str) : Outcome Span :=
  if isMathPart part then
    let math := slice_1_m1 part in
    tryCatch
      (bind (renderToString math) (fun html => Returned (Typeset html)))
      (fun _ => Returned (Flagged part))
  else Returned (Plain part).

(** [None] is the [null] of [if (!line) return null]. *)
Definition renderTextWithMath (line : str) : Outcome (option (list Span)) :=
  if is_empty line then Returned None
  else bind (mapM renderPart (splitCapture mathRe line))
            (fun spans => Returned (Some spans)).

End Renderer.

(** ** Block stylist (the class chosen for a text block) *)

Definition isAnswer (line : str) : bool := includes line (lit "FINAL ANSWER:").

Definition isHeader (line : str) : bool :=
  includes line (lit "GIVEN:") || includes line (lit "STEPS:")
  || startsWith line (lit "Part").

Inductive Style : Type := answer | header | plain.

(** [isAnswer ? '...' : isHeader ? '...' : '...'] *)
Definition styleOf (line : str) : Style :=
  if isAnswer line then answer else if isHeader line then header else plain.

(** [{isHeader && <div ... animate-pulse ...>}] *)
Definition hasBullet (line : str) : bool := isHeader line.

End Readout.

(* ================================================================== *)
(** * Starting a quiz ([startQuiz] in [src/App.tsx]) *)
(* ================================================================== *)

Module Quiz.

Import Readout.

Record Question : Type := mkQuestion {
  question : str;
  options : list str;
  correctAnswer : nat;
  explanation : str
}.

Record Quiz : Type := mkQuiz {
  id : str;
  topic : str;
  level : nat;
  questions : list Question
}.

Inductive ViewMode : Type := chat | quizzes | stats | saved.

(** The state cells of [App] that [startQuiz] and the quiz view touch, and
    the notices shown through [alert]. *)
Record App : Type := mkApp {
  isThinking : bool;
  selectedTopic : option str;
  isQuizComplete : bool;
  activeQuiz : option Quiz;
  quizAnswers : list (option nat);
  currentQuestionIndex : nat;
  viewMode : ViewMode;
  alerts : list str
}.

(** U+1F916 as a surrogate pair. *)
Definition robot : str := [55358%N; 56598%N].

Definition failureNotice : str :=
  lit "Quiz generation protocol failed. " ++ robot ++ lit " System busy.".

(** The statements before the [await]. *)
Definition startQuizBegin (topic : str) (a : App) : App :=
  mkApp true (Some topic) false (activeQuiz a) (quizAnswers a)
    (currentQuestionIndex a) (viewMode a) (alerts a).

(** The rest of the [try], the [catch] and the [finally], once the promise
    of [generateQuiz] has settled. *)
Definition startQuizSettle (result : Outcome Quiz) (a : App) : App :=
  let a :=
    match result with
    | Returned quiz =>
        mkApp (isThinking a) (selectedTopic a) (isQuizComplete a)
          (Some quiz) (repeat None 10) 0 quizzes (alerts a)
    | Raised _ =>
        mkApp (isThinking a) (selectedTopic a) (isQuizComplete a)
          (activeQuiz a) (quizAnswers a) (currentQuestionIndex a) (viewMode a)
          (alerts a ++ [failureNotice])
    end in
  mkApp false (selectedTopic a) (isQuizComplete a) (activeQuiz a)
    (quizAnswers a) (currentQuestionIndex a) (viewMode a) (alerts a).

Section StartQuiz.

(** [generateQuiz(topic, level)], a call to the external service. *)
Variable generateQuiz : str -> nat -> Outcome Quiz.

(** [level: number = 1] *)
Definition startQuiz (topic : str) (level : option nat) (a : App) : App :=
  let level := match level with Some l => l | None => 1 end in
  startQuizSettle (generateQuiz topic level) (startQuizBegin topic a).

End StartQuiz.

(** The cells as [useState] initialises them. *)
Definition initialApp : App := mkApp false None false None [] 0 chat [].

(** What the quiz view reads. *)
Definition quizView (a : App) : option Quiz * nat * list (option nat) * ViewMode :=
  (activeQuiz a, currentQuestionIndex a, quizAnswers a, viewMode a).

End Quiz.

(* ================================================================== *)
(** * The local evaluator of the solver service *)
(* ================================================================== *)

Module Solver.

Import Re Readout.

(** [MathResult]; the fields the local evaluator fills. *)
Record MathResult : Type := mkResult {
  content : str;
  topic : str
}.

(** [mathMap], in insertion order. *)
Definition mathMap : list (str * str) :=
  [ (lit "pi", lit "Math.PI");       (lit "e", lit "Math.E");
    (lit "sin", lit "Math.sin");     (lit "cos", lit "Math.cos");
    (lit "tan", lit "Math.tan");     (lit "asin", lit "Math.asin");
    (lit "acos", lit "Math.acos");   (lit "atan", lit "Math.atan");
    (lit "sqrt", lit "Math.sqrt");   (lit "cbrt", lit "Math.cbrt");
    (lit "log", lit "Math.log10");   (lit "ln", lit "Math.log");
    (lit "abs", lit "Math.abs");     (lit "exp", lit "Math.exp");
    (lit "ceil", lit "Math.ceil");   (lit "floor", lit "Math.floor");
    (lit "round", lit "Math.round"); (lit "^", lit "**") ].

(** [keys.sort((a, b) => b.length - a.length)]; the sort is stable. *)
Fixpoint insertByLength (k : str * str) (l : list (str * str)) : list (str * str) :=
  match l with
  | [] => [k]
  | k' :: l' =>
      if length (fst k') <=? length (fst k) then k :: l
      else k' :: insertByLength k l'
  end.

Definition sortByLength (l : list (str * str)) : list (str * str) :=
  fold_right insertByLength [] l.

Definition isDigit (c : char) : bool := ((48 <=? c) && (c <=? 57))%N.
Definition isLower (c : char) : bool := ((97 <=? c) && (c <=? 122))%N.
Definition isUpper (c : char) : bool := ((65 <=? c) && (c <=? 90))%N.

Definition oneOf (set : str) (c : char) : bool := existsb (char_eqb c) set.

(** The class of
    [/^[0-9+\-*/**%().\s|sin|cos|tan|sqrt|cbrt|log|ln|exp|pi|e|abs|atan|acos|asin|ceil|floor|round]+$/]:
    inside the brackets the bars and the names are single characters. *)
Definition expressionClass (c : char) : bool :=
  isDigit c || oneOf (lit "+-*/**%().") c || isWhiteSpace c
  || oneOf (lit "|sin|cos|tan|sqrt|cbrt|log|ln|exp|pi|e|abs|atan|acos|asin|ceil|floor|round") c.

Definition expressionRegex : pattern := Bos :: Plus expressionClass ++ [Eos].

(** [new RegExp(`\\b${key}\\b`, 'g')] for a key of letters. *)
Definition wordRe (key : str) : pattern := WordB :: Lit key ++ [WordB].

(** The body of the [forEach] over the sorted keys. *)
Definition substituteKey (jsEvalString : str) (entry : str * str) : str :=
  let (key, value) := entry in
  if str_eqb key (lit "^")
  then join (lit "**") (split (ch "^") jsEvalString)
  else replaceAll (wordRe key) value jsEvalString.

(** [/Math\.[a-z0-9]+/g] and [/[a-zA-Z]/] *)
Definition mathNameRe : pattern :=
  Lit (lit "Math.") ++ Plus (fun c => isLower c || isDigit c).

Definition letterRe : pattern := [Cls (fun c => isLower c || isUpper c)].

(** [/\.?0+$/] *)
Definition trailingZerosRe : pattern :=
  Opt (isChar ".") :: Plus (isChar "0") ++ [Eos].

Definition newline : str := [10%N].

Section Host.

(** Numbers and the built-ins on them are the host's: the values of
    [eval], [isNaN], [Number.isInteger], [toString] and [toFixed(6)].
    [hostLowerCase] is [toLowerCase] on strings that leave Basic Latin. *)
Variable Num : Type.

Inductive JsValue : Type :=
  | JsNumber (x : Num)
  | JsOther.

Variable eval : str -> Outcome JsValue.
Variable isNaN : Num -> bool.
Variable isInteger : Num -> bool.
Variable toString : Num -> str.
Variable toFixed6 : Num -> str.
Variable hostLowerCase : str -> str.

Definition toLowerCase (s : str) : str :=
  if forallb (fun c => (c <? 128)%N) s then map toLowerUnit s
  else hostLowerCase s.

(** The chain of [replace] calls and the [trim] that give [sanitized]. *)
Definition sanitize (query : str) : str :=
  trim
    (replaceAll (Lit (lit "?")) []
       (replaceAll (Lit (lit "evaluate")) []
          (replaceAll (Lit (lit "what is")) []
             (replaceAll (Lit (lit "solve")) []
                (replaceAll (Lit (lit "calculate")) []
                   (toLowerCase query)))))).

Definition jsEvalStringOf (sanitized : str) : str :=
  fold_left substituteKey (sortByLength mathMap) sanitized.

(** [Number.isInteger(result) ? result.toString()
      : result.toFixed(6).replace(/\.?0+$/, "")] *)
Definition formatResult (x : Num) : str :=
  if isInteger x then toString x
  else replaceFirst trailingZerosRe [] (toFixed6 x).

Definition localContent (sanitized formattedResult : str) : str :=
  Quiz.robot ++ lit " Immediate computation via local arithmetic unit."
  ++ newline ++ newline
  ++ lit "GIVEN:" ++ newline
  ++ lit "Expression: $" ++ replaceAll (Lit (lit "**")) (lit "^") sanitized ++ lit "$"
  ++ newline ++ newline
  ++ lit "STEPS:" ++ newline
  ++ lit "1. Input parsed by High-Speed Calculation Core." ++ newline
  ++ lit "2. Scientific constants and functions normalized." ++ newline
  ++ lit "3. Execution of arithmetic sequence successful."
  ++ newline ++ newline
  ++ lit "FINAL ANSWER:" ++ newline
  ++ lit "$" ++ formattedResult ++ lit "$".

(** [None] is [null]. *)
Definition tryLocalScientificEvaluation (query : str) : option MathResult :=
  let sanitized := sanitize query in
  if negb (test expressionRegex sanitized) then None
  else
    let jsEvalString := jsEvalStringOf sanitized in
    if test letterRe (replaceAll mathNameRe [] jsEvalString) then None
    else
      match eval jsEvalString with
      | Raised _ => None
      | Returned JsOther => None
      | Returned (JsNumber result) =>
          if isNaN result then None
          else Some (mkResult (localContent sanitized (formatResult result))
                       (lit "Quick Compute"))
      end.

(** The first statements of [solveMathProblem]: either the local result is
    returned, or control reaches [new GoogleGenAI(...)] and the request to
    the service. *)
Inductive Route : Type :=
  | AnsweredLocally (r : MathResult)
  | SentToService (query : str).

Definition solveMathProblem (query : str) (image : option (str * str)) : Route :=
  match image with
  | None =>
      match tryLocalScientificEvaluation query with
      | Some localResult => AnsweredLocally localResult
      | None => SentToService query
      end
  | Some _ => SentToService query
  end.

End Host.

End Solver.

(* ================================================================== *)
(** * Vocabulary of the specification *)
(* ================================================================== *)

Module ReadoutSpec.

Import Re Readout.

(** [line.trim() !== ''] fails. *)
Definition isBlank (line : str) : bool := str_eqb (trim line) [].

(** A line the segmenter drops. *)
Definition isDiscarded (line : str) : bool :=
  isBlank line || (isTableRow line && isSeparatorRow line).

(** The row data of a source line and of a block: a text line as it is, a
    table row as its list of cells. *)
Inductive Datum : Type :=
  | Line (line : str)
  | Row (cells : list str).

Definition lineData (line : str) : list Datum :=
  if isDiscarded line then []
  else if isTableRow line then [Row (rowCells line)]
  else [Line line].

Definition blockData (b : ContentBlock) : list Datum :=
  match b with
  | Text line => [Line line]
  | Table rows => map Row rows
  end.

(** The same, as one sequence of strings. *)
Definition datumCells (d : Datum) : list str :=
  match d with
  | Line line => [line]
  | Row cells => cells
  end.

Definition lineCells (line : str) : list str := flat_map datumCells (lineData line).

Definition blockCells (b : ContentBlock) : list str :=
  match b with
  | Text line => [line]
  | Table rows => concat rows
  end.


(** The separator row in the words of the specification: a line of the shape
    of a table row made of pipes, dashes, colons and white space only. *)
Definition specSeparatorClass (c : char) : bool :=
  isChar "|" c || isChar "-" c || isChar ":" c || isWhiteSpace c.

Definition specSeparatorRow (line : str) : bool :=
  test tableRowRe line && forallb specSeparatorClass line.

(** The row data a state of the segmenter holds. *)
Definition dataOf (st : SegState) : list Datum :=
  flat_map blockData (blocks st) ++ map Row (currentTable st).

Definition pipe : char := ch "|".
Definition dollar : char := ch "$".

(** Between two events: the count is within the blocks, and a timeout is
    pending exactly while blocks remain hidden, the one whose handle the
    cleanup closure holds. *)
Record Inv (c : Component) : Prop := mkInv {
  inv_bound : visibleBlockCount c <= length (contentBlocks c);
  inv_timer :
    if visibleBlockCount c <? length (contentBlocks c)
    then exists h, timers c = [h] /\ cleanup c = Some h
    else timers c = [] /\ cleanup c = None
}.

(** Before a run of the second effect: no timeout but the one its cleanup
    is about to clear. *)
Definition Quiet (c : Component) : Prop :=
  match cleanup c with
  | Some h => clearTimeout h (timers c) = []
  | None => timers c = []
  end.

(** The blocks are those of the current text. *)
Definition Synced (c : Component) : Prop := contentBlocks c = segment (text c).

(** The span a part becomes, as a function of what the typesetter does. *)
Definition spanOf (renderToString : str -> Outcome str) (part : str) : Span :=
  if isMathPart part then
    match renderToString (slice_1_m1 part) with
    | Returned html => Typeset html
    | Raised _ => Flagged part
    end
  else Plain part.

(** The scenario of the specification:
    ["GIVEN:\nx=5\n| a | b |\n|---|---|\n| 1 | 2 |\nFINAL ANSWER: 7"]. *)
Definition scenario : str :=
  lit "GIVEN:" ++ [10%N] ++ lit "x=5" ++ [10%N] ++ lit "| a | b |" ++ [10%N]
  ++ lit "|---|---|" ++ [10%N] ++ lit "| 1 | 2 |" ++ [10%N]
  ++ lit "FINAL ANSWER: 7".

(** "contains" and "starts with", as the specification uses them. *)
Definition Contains (marker line : str) : Prop :=
  exists before after, line = before ++ marker ++ after.

Definition StartsWith (prefix line : str) : Prop :=
  exists rest, line = prefix ++ rest.

End ReadoutSpec.

(** The declarative reading of a pattern, against which [Re.run] is checked. *)

Module ReSpec.
Import Re.

(** The code unit before the position reached after reading [pre]. *)
Definition prevAfter (prev : option char) (pre : str) : option char :=
  fold_left (fun _ c => Some c) pre prev.

(** [Matches pat prev s n]: the pattern matches the first [n] code units of
    [s], whatever the order in which a matcher tries the alternatives. *)
Inductive Matches : pattern -> option char -> str -> nat -> Prop :=
  | M_nil prev s : Matches [] prev s 0
  | M_cls p pat prev c s n :
      p c = true -> Matches pat (Some c) s n ->
      Matches (Cls p :: pat) prev (c :: s) (S n)
  | M_star_stop p pat prev s n :
      Matches pat prev s n -> Matches (Star p :: pat) prev s n
  | M_star_more p pat prev c s n :
      p c = true -> Matches (Star p :: pat) (Some c) s n ->
      Matches (Star p :: pat) prev (c :: s) (S n)
  | M_lazy_stop p pat prev s n :
      Matches pat prev s n -> Matches (LazyStar p :: pat) prev s n
  | M_lazy_more p pat prev c s n :
      p c = true -> Matches (LazyStar p :: pat) (Some c) s n ->
      Matches (LazyStar p :: pat) prev (c :: s) (S n)
  | M_opt_skip p pat prev s n :
      Matches pat prev s n -> Matches (Opt p :: pat) prev s n
  | M_opt_take p pat prev c s n :
      p c = true -> Matches pat (Some c) s n ->
      Matches (Opt p :: pat) prev (c :: s) (S n)
  | M_bos pat s n :
      Matches pat None s n -> Matches (Bos :: pat) None s n
  | M_eos pat prev n :
      Matches pat prev [] n -> Matches (Eos :: pat) prev [] n
  | M_wordb pat prev s n :
      xorb (wordOpt prev) (wordOpt (hd_error s)) = true ->
      Matches pat prev s n -> Matches (WordB :: pat) prev s n.

End ReSpec.

(* ================================================================== *)
(** * What the readout renders (the [return] of [RoboticReadout]) *)
(* ================================================================== *)

Module ReadoutView.

Import Re Readout.

(** The element a block becomes: a grid with its header cells and body
    rows, or a styled line with its optional bullet.  A cell or a line is
    what [renderTextWithMath] made of it. *)
Inductive Element : Type :=
  | Grid (head : list (option (list Span)))
         (body : list (list (option (list Span))))
  | Paragraph (style : Style) (bullet : bool) (content : option (list Span)).

Section View.

Variable renderToString : str -> Outcome str.

(** The callback of [contentBlocks.slice(0, visibleBlockCount).map].
    [tableData[0].map] throws a [TypeError] on a table without rows. *)
Definition renderBlock (block : ContentBlock) : Outcome Element :=
  match block with
  | Table tableData =>
      match tableData with
      | [] => Raised (lit "TypeError")
      | headRow :: bodyRows =>
          bind (mapM (renderTextWithMath renderToString) headRow) (fun head =>
          bind (mapM (mapM (renderTextWithMath renderToString)) bodyRows) (fun body =>
          Returned (Grid head body)))
      end
  | Text line =>
      bind (renderTextWithMath renderToString line) (fun content =>
      Returned (Paragraph (styleOf line) (hasBullet line) content))
  end.

Definition render (c : Component) : Outcome (list Element) :=
  mapM renderBlock (visibleBlocks c).

End View.

(** The text a span shows when the typesetter is out of order. *)
Definition spanText (s : Span) : str :=
  match s with
  | Typeset html => html
  | Flagged part => part
  | Plain part => part
  end.

(** A table the grid can show: it has a row, and no row is empty. *)
Definition wellFormedBlock (b : ContentBlock) : Prop :=
  match b with
  | Text line => True
  | Table rows => rows <> [] /\ Forall (fun row => row <> []) rows
  end.

(** A cell as the segmenter leaves it: trimmed, without a pipe and without a
    line terminator. *)
Definition cleanCell (cell : str) : Prop :=
  trim cell = cell /\ ~ In (ch "|") cell /\ forallb dot cell = true.

End ReadoutView.

(* ================================================================== *)
(** * Vocabulary for the local evaluator *)
(* ================================================================== *)

Module SolverSpec.

Import Re Readout ReadoutSpec Solver.

(** The start of a line that can only be a text line. *)
Definition textStart (line : str) : bool :=
  match line with
  | c :: _ => negb (isWhiteSpace c) && negb (char_eqb c pipe)
  | [] => false
  end.

Definition lf : char := 10%N.

Definition isLetter (c : char) : bool := isLower c || isUpper c.

(** A string the evaluator lets through to [eval]: once every
    [Math.<lower case letters and digits>] is taken out, no letter is left. *)
Definition passesLetterGuard (jsEvalString : str) : bool :=
  forallb (fun c => negb (isLetter c)) (replaceAll mathNameRe [] jsEvalString).

End SolverSpec.

(* ================================================================== *)
(** * The request to the service and its answer ([solveMathProblem]) *)
(* ================================================================== *)

Module Service.

Import Re Readout Solver.

(** [Role] and [Message] of the types file, with the fields
    [MessageWithDiagram] adds.  An id is the decimal string of a number and
    is kept as that number; [Raised e] carries [String(error)]. *)
Inductive Role : Type := user | assistant.

Record Message : Type := mkMessage {
  id : nat;
  role : Role;
  content : str;
  timestamp : nat;
  topic : option str;
  diagramUrl : option str;
  imageUrl : option str;
  isGeneratingDiagram : option bool;
  isError : option bool
}.

(** The [contents] of a request. *)
Inductive ApiRole : Type := roleUser | roleModel.

Inductive Part : Type :=
  | TextPart (text : str)
  | InlineData (data mimeType : str).

Record Content : Type := mkContent {
  turn : ApiRole;
  parts : list Part
}.

Definition apiRole_eqb (a b : ApiRole) : bool :=
  match a, b with
  | roleUser, roleUser | roleModel, roleModel => true
  | _, _ => false
  end.

(** [contents[contents.length - 1].role], when there is one. *)
Definition lastTurn (contents : list Content) : option ApiRole :=
  match rev contents with
  | c :: _ => Some (turn c)
  | [] => None
  end.

(** [history.slice(-4)] *)
Definition lastFour {A} (history : list A) : list A :=
  skipn (length history - 4) history.

(** The callback of [history.slice(-4).forEach]. *)
Definition pushTurn (contents : list Content) (msg : Message) : list Content :=
  let r := match role msg with user => roleUser | assistant => roleModel end in
  match lastTurn contents with
  | None => contents ++ [mkContent r [TextPart (content msg)]]
  | Some r' =>
      if negb (apiRole_eqb r' r)
      then contents ++ [mkContent r [TextPart (content msg)]]
      else contents
  end.

Definition defaultQuery : str :=
  lit "Hi NEXTLEVEL! Can you help me with this mathematical problem?".

Definition userPartsOf (query : str) (image : option (str * str)) : list Part :=
  TextPart (if is_empty query then defaultQuery else query)
  :: match image with
     | Some (data, mimeType) => [InlineData data mimeType]
     | None => []
     end.

(** From [const contents: any[] = []] to the last [contents.push]. *)
Definition buildContents (query : str) (history : list Message)
    (image : option (str * str)) : list Content :=
  let contents := fold_left pushTurn (lastFour history) [] in
  let contents :=
    match lastTurn contents with
    | Some roleUser => removelast contents
    | _ => contents
    end in
  contents ++ [mkContent roleUser (userPartsOf query image)].

(** What [solveMathProblem] resolves to. *)
Record Reply : Type := mkReply {
  replyContent : option str;
  replyTopic : option str;
  diagramPrompt : option str;
  error : option str;
  message : option str
}.

Definition ofLocal (r : MathResult) : Reply :=
  mkReply (Some (Solver.content r)) (Some (Solver.topic r)) None None None.

(** [/Topic: (.*?)\n/] and [/\[DIAGRAM_PROMPT: (.*?)\]/] *)
Definition topicPrefix : str := lit "Topic: ".
Definition diagramPrefix : str := lit "[DIAGRAM_PROMPT: ".

Definition topicRe : pattern :=
  Lit topicPrefix ++ [LazyStar dot; Cls (isChar "010")].

Definition diagramRe : pattern :=
  Lit diagramPrefix ++ [LazyStar dot; Cls (isChar "]")].

(** [s.match(re)[1]] for a pattern made of a literal, one group and one
    closing code unit: the group is the match without the two. *)
Definition matchGroup (prefix : str) (pat : pattern) (s : str) : option str :=
  match search pat None s with
  | Some (i, n) =>
      Some (firstn (n - length prefix - 1) (skipn (i + length prefix) s))
  | None => None
  end.

(** The statements of the [try] after [const text = response.text] has been
    found to be a non-empty string. *)
Definition parseResponse (text : str) (image : option (str * str)) : Reply :=
  let detectedTopic :=
    match matchGroup topicPrefix topicRe text with
    | Some g => trim g
    | None =>
        match image with
        | Some _ => lit "Visual Analysis"
        | None => lit "Computation"
        end
    end in
  let rawContent :=
    trim (replaceFirst diagramRe [] (replaceFirst topicRe [] text)) in
  mkReply (Some rawContent) (Some detectedTopic)
    (matchGroup diagramPrefix diagramRe text) None None.

(** The five kinds of failure and their notices. *)
Definition generalMessage : str :=
  lit "Computation error. " ++ Quiz.robot
  ++ lit " My processing unit encountered an anomaly. Please retry.".
Definition networkMessage : str :=
  lit "Uplink synchronization failure. " ++ Quiz.robot
  ++ lit " Connection to academic mainframe lost. Check local network protocols.".
Definition authMessage : str :=
  lit "Authorization denied. " ++ Quiz.robot
  ++ lit " My core requires a valid security token. Check system environment.".
Definition safetyMessage : str :=
  lit "Protocol violation. " ++ Quiz.robot
  ++ lit " Input parameters conflict with safety-logic core. Computational path terminated.".
Definition rateMessage : str :=
  lit "Resource exhausted. " ++ Quiz.robot
  ++ lit " Quota exceeded. My cooling systems require a brief cooldown. Wait before retrying.".

Section Host.

Variable Num : Type.
Variable eval : str -> Outcome (JsValue Num).
Variable isNaN isInteger : Num -> bool.
Variable toString toFixed6 : Num -> str.
Variable hostLowerCase : str -> str.

(** The body of the [catch]; [thrown] is [String(error)]. *)
Definition classifyError (thrown : str) : Reply :=
  let errStr := toLowerCase hostLowerCase thrown in
  if includes errStr (lit "fetch") || includes errStr (lit "network")
  then mkReply None None None (Some (lit "NETWORK_ERROR")) (Some networkMessage)
  else if includes errStr (lit "api_key") || includes errStr (lit "unauthorized")
  then mkReply None None None (Some (lit "AUTH_ERROR")) (Some authMessage)
  else if includes errStr (lit "safety") || includes errStr (lit "blocked")
  then mkReply None None None (Some (lit "SAFETY_BLOCK")) (Some safetyMessage)
  else if includes errStr (lit "quota") || includes errStr (lit "429")
  then mkReply None None None (Some (lit "RATE_LIMIT")) (Some rateMessage)
  else mkReply None None None (Some (lit "GENERAL_FAILURE")) (Some generalMessage).

(** [ai.models.generateContent(...)] gives [response.text], which may be
    [undefined], or throws; [new GoogleGenAI(...)] may throw as well. *)
Variable newClient : Outcome unit.
Variable generateContent : list Content -> Outcome (option str).

(** The [try] and the [catch] of [solveMathProblem]. *)
Definition askService (contents : list Content) (image : option (str * str))
    : Outcome Reply :=
  tryCatch
    (bind (generateContent contents) (fun text =>
       match text with
       | None => Raised (lit "Error: EMPTY_RESPONSE")
       | Some text =>
           if is_empty text then Raised (lit "Error: EMPTY_RESPONSE")
           else Returned (parseResponse text image)
       end))
    (fun thrown => Returned (classifyError thrown)).

(** The whole of [solveMathProblem]: the local route of [Solver], and the
    service after it. *)
Definition solve (query : str) (history : list Message)
    (image : option (str * str)) : Outcome Reply :=
  match solveMathProblem eval isNaN isInteger toString toFixed6 hostLowerCase
          query image with
  | AnsweredLocally localResult => Returned (ofLocal localResult)
  | SentToService _ =>
      bind newClient (fun _ =>
        askService (buildContents query history image) image)
  end.

End Host.

Definition bracket : char := ch "[".

Definition isBasicLatin (s : str) : bool := forallb (fun c => (c <? 128)%N) s.

(** The kinds of failure with their notices. *)
Definition failures : list (str * str) :=
  [ (lit "NETWORK_ERROR", networkMessage); (lit "AUTH_ERROR", authMessage);
    (lit "SAFETY_BLOCK", safetyMessage); (lit "RATE_LIMIT", rateMessage);
    (lit "GENERAL_FAILURE", generalMessage) ].

Definition isFailure (r : Reply) : Prop :=
  replyContent r = None /\ replyTopic r = None /\ diagramPrompt r = None /\
  exists kind notice,
    In (kind, notice) failures /\ error r = Some kind /\ message r = Some notice.

(** The turns of a request follow one another in alternation. *)
Fixpoint alternates (turns : list ApiRole) : bool :=
  match turns with
  | a :: ((b :: _) as rest) => negb (apiRole_eqb a b) && alternates rest
  | _ => true
  end.

End Service.

(* ================================================================== *)
(** * Sending a problem ([handleSend] in [src/App.tsx]) *)
(* ================================================================== *)

Module Chat.

Import Readout Solver Service.

(** [generateDiagram] of the service file.  The service gives the parts of
    the first candidate, each with its inline data if it has some. *)
Section Diagram.

Variable newClient : Outcome unit.
Variable generateImage : str -> Outcome (list (option str)).

Definition dataUriPrefix : str := lit "data:image/png;base64,".

(** [for (const part of ...) { if (part.inlineData) return ...; } return null] *)
Fixpoint firstInlineData (parts : list (option str)) : option str :=
  match parts with
  | [] => None
  | Some data :: _ => Some (dataUriPrefix ++ data)
  | None :: rest => firstInlineData rest
  end.

Definition generateDiagram (prompt : str) : Outcome (option str) :=
  bind newClient (fun _ =>
    tryCatch
      (bind (generateImage prompt) (fun parts => Returned (firstInlineData parts)))
      (fun _ => Returned None)).

End Diagram.

(** [SolvedProblem] and [UserStats] of the types file.  A value of a
    [Record<string, number>] is a number, here a count, or [NaN]. *)
Record SolvedProblem : Type := mkSolved {
  solvedId : nat;
  query : str;
  solution : str;
  solvedTopic : str;
  savedAt : nat
}.

Inductive Mastery : Type :=
  | Pct (n : nat)
  | NotANumber.

Definition Dict := list (str * Mastery).

Record UserStats : Type := mkStats {
  problemsSolved : nat;
  quizzesTaken : nat;
  averageScore : nat;
  levelMastery : Dict;
  topicMastery : Dict
}.

(** The own property [key] of an object, if it has one. *)
Fixpoint own (key : str) (d : Dict) : option Mastery :=
  match d with
  | [] => None
  | (k, v) :: d' => if str_eqb k key then Some v else own key d'
  end.

(** [{ ...d, [key]: v }]: the value is replaced where the key is, or the
    key is added last. *)
Fixpoint withKey (key : str) (v : Mastery) (d : Dict) : Dict :=
  match d with
  | [] => [(key, v)]
  | (k, v') :: d' =>
      if str_eqb k key then (k, v) :: d' else (k, v') :: withKey key v d'
  end.

(** The selected image: [preview], [base64] and [file.type]. *)
Record Image : Type := mkImage {
  preview : str;
  base64 : str;
  mimeType : str
}.

(** The state cells of [App] that [handleSend] reads and writes. *)
Record State : Type := mkState {
  messages : list Message;
  inputValue : str;
  selectedImage : option Image;
  isThinking : bool;
  savedProblems : list SolvedProblem;
  userStats : UserStats
}.

(** The values of [Date.now()] and [new Date()] along one call. *)
Record Clock : Type := mkClock {
  userId : nat;
  userTime : nat;
  assistantBase : nat;
  assistantTime : nat;
  savedTime : nat;
  errorId : nat;
  errorTime : nat
}.

(** The truth value of a string that may be [undefined] or [null]. *)
Definition truthy (s : option str) : bool :=
  match s with
  | Some (_ :: _) => true
  | _ => false
  end.

(** [a || b] on such strings. *)
Definition orElse (a : option str) (b : str) : str :=
  match a with
  | Some (c :: s) => c :: s
  | _ => b
  end.

Definition stockInput : str := lit "Please analyze this mathematical input.".

Definition logicFailure : str :=
  lit "Logic failure. " ++ Quiz.robot ++ lit " Data corruption in reasoning core.".

Definition protocolError : str :=
  lit "Protocol error. " ++ Quiz.robot ++ lit " Re-initializing logic gates.".

Section Send.

(** The two imported functions, and the names every object inherits from
    [Object.prototype]. *)
Variable solveMathProblem :
  str -> list Message -> option (str * str) -> Outcome Reply.
Variable generateDiagram : str -> Outcome (option str).
Variable inherited : str -> bool.

(** [Math.min(100, (topicMastery[topic] || 0) + 5)]: an inherited member is
    an object, the sum a string and the minimum [NaN]. *)
Definition raisedMastery (topic : str) (d : Dict) : Mastery :=
  match own topic d with
  | Some (Pct n) => Pct (Nat.min 100 (n + 5))
  | Some NotANumber => Pct 5
  | None => if inherited topic then NotANumber else Pct 5
  end.


(** The updater given to [setUserStats]. *)
Definition countSolved (topic : str) (prev : UserStats) : UserStats :=
  mkStats (problemsSolved prev + 1) (quizzesTaken prev) (averageScore prev)
    (levelMastery prev)
    (withKey topic (raisedMastery topic (topicMastery prev)) (topicMastery prev)).

(** The updater given to [setMessages] once the diagram is there. *)
Definition attachDiagram (target : nat) (url : option str) (m : Message) : Message :=
  if id m =? target
  then mkMessage (id m) (role m) (content m) (timestamp m) (topic m)
         (if truthy url then url else None) (imageUrl m) (Some false) (isError m)
  else m.

(** The [catch]. *)
Definition reportProtocolError (clock : Clock) (st : State) : State :=
  mkState
    (messages st
     ++ [mkMessage (errorId clock) assistant protocolError (errorTime clock)
           None None None None (Some true)])
    (inputValue st) (selectedImage st) (isThinking st) (savedProblems st)
    (userStats st).

(** The message built from the result, and [setMessages(prev => [...prev,
    assistantMsg])]. *)
Definition answerOf (clock : Clock) (result : Reply) : Message :=
  mkMessage (assistantBase clock + 1) assistant
    (orElse (replyContent result) (orElse (message result) logicFailure))
    (assistantTime clock) (replyTopic result) None None
    (Some (truthy (diagramPrompt result))) (Some (truthy (error result))).

Definition appendMessage (m : Message) (st : State) : State :=
  mkState (messages st ++ [m]) (inputValue st) (selectedImage st)
    (isThinking st) (savedProblems st) (userStats st).

(** [if (result.diagramPrompt) { const url = await generateDiagram(...);
     setMessages(prev => prev.map(...)); }] *)
Definition diagramStep (clock : Clock) (result : Reply) (st : State) : Outcome State :=
  if truthy (diagramPrompt result)
  then bind (generateDiagram (orElse (diagramPrompt result) []))
         (fun url =>
            Returned
              (mkState
                 (map (attachDiagram (id (answerOf clock result)) url) (messages st))
                 (inputValue st) (selectedImage st) (isThinking st)
                 (savedProblems st) (userStats st)))
  else Returned st.

(** [if (result.topic && !result.error) { setSavedProblems(...);
     setUserStats(...); }] *)
Definition saveStep (clock : Clock) (currentInput : str) (result : Reply)
    (st : State) : State :=
  if truthy (replyTopic result) && negb (truthy (error result))
  then mkState (messages st) (inputValue st) (selectedImage st) (isThinking st)
         (mkSolved (id (answerOf clock result)) currentInput
            (content (answerOf clock result)) (orElse (replyTopic result) [])
            (savedTime clock)
          :: savedProblems st)
         (countSolved (orElse (replyTopic result) []) (userStats st))
  else st.

Definition handleSend (clock : Clock) (st : State) : State :=
  if (is_empty (trim (inputValue st))
      && match selectedImage st with Some _ => false | None => true end)
     || isThinking st
  then st
  else
    let currentImage := selectedImage st in
    let currentInput := inputValue st in
    let userMsg :=
      mkMessage (userId clock) user
        (if is_empty currentInput then stockInput else currentInput)
        (userTime clock) None None (option_map preview currentImage) None None in
    let st1 :=
      mkState (messages st ++ [userMsg]) [] None true (savedProblems st)
        (userStats st) in
    let after :=
      match solveMathProblem (content userMsg) (messages st ++ [userMsg])
              (option_map (fun i => (base64 i, mimeType i)) currentImage) with
      | Returned result =>
          let st2 := appendMessage (answerOf clock result) st1 in
          match diagramStep clock result st2 with
          | Returned st3 => saveStep clock currentInput result st3
          | Raised _ => reportProtocolError clock st2
          end
      | Raised _ => reportProtocolError clock st1
      end in
    mkState (messages after) (inputValue after) (selectedImage after) false
      (savedProblems after) (userStats after).

End Send.

(** The cells as [useState] initialises them; the greeting has id ['1']. *)
Definition greeting : str :=
  lit "hi there! i'm NEXTLEVEL, your math buddy! " ++ Quiz.robot
  ++ [10%N] ++ lit "how can i help you today? you can type a problem or share a photo!".

Definition initialState (mountTime : nat) : State :=
  mkState
    [mkMessage 1 assistant greeting mountTime (Some []) None None None None]
    [] None false [] (mkStats 0 0 0 [] []).


Section Session.

Variable solveMathProblem :
  str -> list Message -> option (str * str) -> Outcome Reply.
Variable generateDiagram : str -> Outcome (option str).
Variable inherited : str -> bool.


End Session.

(** A send whose request the service fails. *)
Definition downClock : Clock := mkClock 1700 1700 1800 1800 1800 1900 1900.

Definition asking : State :=
  mkState (messages (initialState 0)) (lit "what is the derivative of x^2") None
    false [] (mkStats 0 0 0 [] []).

Definition failedSend : State :=
  handleSend
    (solve (fun _ => Returned (JsNumber 0)) (fun _ => false) (fun _ => true)
       (fun _ : nat => lit "0") (fun _ => lit "0.000000") (fun s => s)
       (Returned tt) (fun _ => Raised (lit "TypeError: Failed to fetch")))
    (fun _ => Returned None) (fun _ => false) downClock asking.

(** The guard of [handleSend], which is also what disables the button. *)
Definition refused (st : State) : bool :=
  (is_empty (trim (inputValue st))
   && match selectedImage st with Some _ => false | None => true end)
  || isThinking st.

(** What a message says and who says it. *)
Definition said (m : Message) : nat * Role * str := (id m, role m, content m).



End Chat.

(* ================================================================== *)
(** * Playing a quiz (the quiz view of [src/App.tsx]) *)
(* ================================================================== *)

Module QuizPlay.

Import Readout Quiz.

(** [arr[i] = v] on a copy, for an index within the array. *)
Fixpoint replaceAt {A} (i : nat) (v : A) (l : list A) : list A :=
  match l, i with
  | [], _ => []
  | _ :: l', 0 => v :: l'
  | x :: l', S i' => x :: replaceAt i' v l'
  end.

(** The [onClick] of an option button: [if (quizAnswers[currentQuestionIndex]
    === null) { const newAns = [...quizAnswers]; newAns[...] = oIdx;
    setQuizAnswers(newAns); }] *)
Definition chooseOption (oIdx : nat) (a : App) : App :=
  match nth_error (quizAnswers a) (currentQuestionIndex a) with
  | Some None =>
      mkApp (isThinking a) (selectedTopic a) (isQuizComplete a) (activeQuiz a)
        (replaceAt (currentQuestionIndex a) (Some oIdx) (quizAnswers a))
        (currentQuestionIndex a) (viewMode a) (alerts a)
  | _ => a
  end.


(** The [forEach] of [calculateCurrentScore]; a question that is not there
    makes [activeQuiz.questions[idx].correctAnswer] throw. *)
Fixpoint scoreFrom (questions : list Question) (idx : nat)
    (answers : list (option nat)) (correct : nat) : Outcome nat :=
  match answers with
  | [] => Returned correct
  | None :: rest => scoreFrom questions (S idx) rest correct
  | Some ans :: rest =>
      match nth_error questions idx with
      | None => Raised (lit "TypeError")
      | Some q =>
          scoreFrom questions (S idx) rest
            (if ans =? correctAnswer q then correct + 1 else correct)
      end
  end.

Definition calculateCurrentScore (a : App) : Outcome nat :=
  match activeQuiz a with
  | None => Returned 0
  | Some quiz => scoreFrom (questions quiz) 0 (quizAnswers a) 0
  end.


Section Play.

Variable generateQuiz : str -> nat -> Outcome Quiz.Quiz.


End Play.

Definition answered (ans : option nat) : bool :=
  match ans with Some _ => true | None => false end.



(** A quiz of ten questions. *)
Definition sampleQuiz : Quiz.Quiz :=
  mkQuiz (lit "q1") (lit "Calculus") 1
    (repeat (mkQuestion (lit "1+1?") [lit "1"; lit "2"] 1 (lit "count")) 10).


End QuizPlay.

(* ================================================================== *)
(** * Properties of the string library and of the matcher *)
(* ================================================================== *)

Module JsFacts.

Lemma char_eqb_eq c d : char_eqb c d = true <-> c = d.
Proof. apply N.eqb_eq. Qed.

Lemma char_eqb_refl c : char_eqb c c = true.
Proof. apply N.eqb_refl. Qed.

Lemma isChar_eq a c : isChar a c = true <-> c = ch a.
Proof. apply N.eqb_eq. Qed.


Lemma str_eqb_nil s : str_eqb s [] = is_empty s.
Proof. destruct s; reflexivity. Qed.

(** *** [trim] *)

Lemma dropWhile_all p pre rest :
  forallb p pre = true -> dropWhile p (pre ++ rest) = dropWhile p rest.
Proof.
  induction pre as [|c pre IH]; simpl; [reflexivity|].
  intros H. apply andb_true_iff in H as [-> H]. auto.
Qed.

Lemma dropWhile_split p s :
  exists pre, s = pre ++ dropWhile p s /\ forallb p pre = true.
Proof.
  induction s as [|c s (pre & E & H)]; simpl.
  - exists []. auto.
  - destruct (p c) eqn:Hc.
    + exists (c :: pre). simpl. rewrite Hc, H. split; [congruence|reflexivity].
    + exists []. auto.
Qed.

Lemma forallb_rev {A} (p : A -> bool) l : forallb p (rev l) = forallb p l.
Proof.
  induction l as [|x l IH]; simpl; [reflexivity|].
  rewrite forallb_app, IH. simpl. rewrite andb_true_r. apply andb_comm.
Qed.

(** A string is its trimmed form between two runs of white space. *)
Lemma trim_split s :
  exists lead trail,
    s = lead ++ trim s ++ trail /\
    forallb isWhiteSpace lead = true /\ forallb isWhiteSpace trail = true.
Proof.
  unfold trim, trimEnd, trimStart.
  destruct (dropWhile_split isWhiteSpace s) as (lead & E1 & H1).
  destruct (dropWhile_split isWhiteSpace (rev (dropWhile isWhiteSpace s)))
    as (tr & E2 & H2).
  exists lead, (rev tr). repeat split; auto.
  - rewrite <- rev_app_distr, <- E2, rev_involutive. exact E1.
  - rewrite forallb_rev. exact H2.
Qed.

Lemma trim_between pre a mid b post :
  forallb isWhiteSpace pre = true -> forallb isWhiteSpace post = true ->
  isWhiteSpace a = false -> isWhiteSpace b = false ->
  trim (pre ++ a :: mid ++ b :: post) = a :: mid ++ [b].
Proof.
  intros Hpre Hpost Ha Hb. unfold trim, trimStart, trimEnd.
  rewrite dropWhile_all by assumption. simpl. rewrite Ha.
  replace (rev (a :: mid ++ b :: post)) with (rev post ++ b :: rev (a :: mid)).
  - rewrite dropWhile_all by (rewrite forallb_rev; assumption).
    simpl. rewrite Hb. simpl. rewrite rev_app_distr. simpl.
    rewrite rev_involutive. reflexivity.
  - simpl. rewrite rev_app_distr. simpl. rewrite <- !app_assoc. reflexivity.
Qed.

Lemma trim_first_not_space s c r : trim s = c :: r -> isWhiteSpace c = false.
Proof.
  unfold trim, trimEnd, trimStart.
  destruct (dropWhile_split isWhiteSpace (rev (dropWhile isWhiteSpace s)))
    as (tr & E2 & H2).
  intros E.
  assert (Hd : forall t, match dropWhile isWhiteSpace t with
                         | [] => True | x :: _ => isWhiteSpace x = false end).
  { induction t as [|x t IHt]; simpl; [exact I|].
    destruct (isWhiteSpace x) eqn:Hx; [exact IHt|exact Hx]. }
  assert (Hs : dropWhile isWhiteSpace s = c :: r ++ rev tr).
  { rewrite <- (rev_involutive (dropWhile isWhiteSpace s)), E2, rev_app_distr, E.
    reflexivity. }
  specialize (Hd s). rewrite Hs in Hd. exact Hd.
Qed.

Lemma trim_all_space s : forallb isWhiteSpace s = true -> trim s = [].
Proof.
  intros H. unfold trim, trimStart.
  rewrite <- (app_nil_r s), dropWhile_all by assumption. reflexivity.
Qed.

(** *** [startsWith], [includes] *)

Lemma startsWith_iff s p : startsWith s p = true <-> exists r, s = p ++ r.
Proof.
  revert s. induction p as [|c p IH]; intros s; simpl.
  - split; [intros _; exists s; reflexivity | reflexivity].
  - destruct s as [|d s].
    + split; [discriminate|]. intros [r H]; discriminate.
    + rewrite andb_true_iff, char_eqb_eq, IH. split.
      * intros [-> [r ->]]. eauto.
      * intros [r H]. injection H as -> ->. eauto.
Qed.

Lemma includes_iff s t : includes s t = true <-> exists a b, s = a ++ t ++ b.
Proof.
  induction s as [|c s IH]; simpl.
  - rewrite orb_false_r, startsWith_iff. split.
    + intros [r ->]. exists [], r. reflexivity.
    + intros (a & b & H). destruct a; [eauto|discriminate].
  - rewrite orb_true_iff, startsWith_iff, IH. split.
    + intros [[r ->] | (a & b & ->)].
      * exists [], r. reflexivity.
      * exists (c :: a), b. reflexivity.
    + intros (a & b & H). destruct a as [|x a].
      * left. eauto.
      * right. injection H as -> ->. eauto.
Qed.

Lemma includes_char s c : includes s [c] = true <-> In c s.
Proof.
  rewrite includes_iff. split.
  - intros (a & b & ->). apply in_or_app. right. left. reflexivity.
  - intros H. apply in_split in H as (a & b & ->). exists a, b. reflexivity.
Qed.

(** *** [split] and [join] *)

Lemma split_not_nil sep s : split sep s <> [].
Proof.
  destruct s as [|c s]; simpl; [discriminate|].
  destruct (char_eqb c sep); [discriminate|].
  destruct (split sep s); discriminate.
Qed.

Lemma split_no_sep sep s : ~ In sep s -> split sep s = [s].
Proof.
  induction s as [|c s IH]; simpl; intros H; [reflexivity|].
  destruct (char_eqb c sep) eqn:E.
  - apply char_eqb_eq in E. exfalso. apply H. auto.
  - rewrite IH by tauto. reflexivity.
Qed.

Lemma split_app sep a b :
  split sep (a ++ sep :: b) = split sep a ++ split sep b.
Proof.
  induction a as [|c a IH]; simpl.
  - rewrite char_eqb_refl. reflexivity.
  - destruct (char_eqb c sep); rewrite IH; [reflexivity|].
    destruct (split sep a) eqn:E; [|reflexivity].
    exfalso. exact (split_not_nil _ _ E).
Qed.

(** Joining the pieces with the separator gives the string back. *)
Lemma join_split sep s : join [sep] (split sep s) = s.
Proof.
  induction s as [|c s IH]; simpl; [reflexivity|].
  destruct (char_eqb c sep) eqn:E.
  - apply char_eqb_eq in E. subst c.
    destruct (split sep s) eqn:Es; [exfalso; exact (split_not_nil _ _ Es)|].
    simpl in *. rewrite IH. reflexivity.
  - destruct (split sep s) as [|p ps] eqn:Es;
      [exfalso; exact (split_not_nil _ _ Es)|].
    destruct ps; simpl in *; rewrite <- IH; reflexivity.
Qed.

Lemma filter_from_inner {A} (l : list A) : forall i,
  0 < i ->
  filter_from (fun i n => (0 <? i) && (i <? n - 1)) i (i + length l) l
  = removelast l.
Proof.
  induction l as [|x l IH]; intros i Hi; [reflexivity|].
  cbn [filter_from length].
  replace (i + S (length l)) with (S i + length l) by lia.
  destruct l as [|y l].
  - assert (E : (0 <? i) && (i <? S i + length (@nil A) - 1) = false).
    { apply andb_false_iff. right. apply Nat.ltb_ge. simpl. lia. }
    rewrite E. reflexivity.
  - assert (E : (0 <? i) && (i <? S i + length (y :: l) - 1) = true).
    { apply andb_true_iff. split; apply Nat.ltb_lt; simpl; lia. }
    rewrite E, IH by lia. reflexivity.
Qed.

(** Keeping the indices strictly between the first and the last. *)
Lemma filter_index_inner {A} (l : list A) :
  filter_index (fun i n => (0 <? i) && (i <? n - 1)) l = removelast (tl l).
Proof.
  unfold filter_index. destruct l as [|x l]; [reflexivity|].
  simpl. apply (@filter_from_inner A l 1). lia.
Qed.

End JsFacts.

Module ReFacts.
Import Re ReSpec.

Lemma run_star p pat prev s :
  run (Star p :: pat) prev s =
  match s with
  | c :: s' =>
      if p c then
        match run (Star p :: pat) (Some c) s' with
        | Some n => Some (S n)
        | None => run pat prev s
        end
      else run pat prev s
  | [] => run pat prev []
  end.
Proof. destruct s; reflexivity. Qed.

Lemma run_lazy p pat prev s :
  run (LazyStar p :: pat) prev s =
  match run pat prev s with
  | Some n => Some n
  | None =>
      match s with
      | c :: s' => if p c then option_map S (run (LazyStar p :: pat) (Some c) s') else None
      | [] => None
      end
  end.
Proof. destruct s; reflexivity. Qed.

(** Whatever [run] returns is a match. *)
Lemma run_sound pat : forall prev s n, run pat prev s = Some n -> Matches pat prev s n.
Proof.
  induction pat as [|a pat IH]; intros prev s n H.
  - simpl in H. injection H as <-. constructor.
  - destruct a.
    + simpl in H. destruct s as [|c s]; [discriminate|].
      destruct (p c) eqn:Hp; [|discriminate].
      destruct (run pat (Some c) s) eqn:Hr; [|discriminate].
      injection H as <-. constructor; auto.
    + revert prev n H. induction s as [|c s IHs]; intros prev n H; rewrite run_star in H.
      * apply M_star_stop, IH, H.
      * destruct (p c) eqn:Hp.
        -- destruct (run (Star p :: pat) (Some c) s) eqn:Hr.
           ++ injection H as <-. apply M_star_more; auto.
           ++ apply M_star_stop, IH, H.
        -- apply M_star_stop, IH, H.
    + revert prev n H. induction s as [|c s IHs]; intros prev n H; rewrite run_lazy in H.
      * destruct (run pat prev []) eqn:Hr; [|discriminate].
        injection H as <-. apply M_lazy_stop, IH, Hr.
      * destruct (run pat prev (c :: s)) eqn:Hr.
        -- injection H as <-. apply M_lazy_stop, IH, Hr.
        -- destruct (p c) eqn:Hp; [|discriminate].
           destruct (run (LazyStar p :: pat) (Some c) s) eqn:Hl; [|discriminate].
           injection H as <-. apply M_lazy_more; auto.
    + simpl in H. destruct s as [|c s].
      * apply M_opt_skip, IH, H.
      * destruct (p c) eqn:Hp.
        -- destruct (run pat (Some c) s) eqn:Hr.
           ++ injection H as <-. apply M_opt_take; auto.
           ++ apply M_opt_skip, IH, H.
        -- apply M_opt_skip, IH, H.
    + simpl in H. destruct prev; [discriminate|]. constructor; auto.
    + simpl in H. destruct s; [|discriminate]. constructor; auto.
    + simpl in H. destruct (xorb _ _) eqn:Hx; [|discriminate]. constructor; auto.
Qed.

(** When some match exists, [run] returns one. *)
Lemma run_complete pat prev s n :
  Matches pat prev s n -> exists m, run pat prev s = Some m.
Proof.
  induction 1 as
    [ prev s
    | p pat prev c s n Hp _ [m IH]
    | p pat prev s n _ [m IH]
    | p pat prev c s n Hp _ [m IH]
    | p pat prev s n _ [m IH]
    | p pat prev c s n Hp _ [m IH]
    | p pat prev s n _ [m IH]
    | p pat prev c s n Hp _ [m IH]
    | pat s n _ [m IH]
    | pat prev n _ [m IH]
    | pat prev s n Hx _ [m IH] ].
  - exists 0; reflexivity.
  - exists (S m). simpl. rewrite Hp, IH. reflexivity.
  - rewrite run_star. destruct s as [|c s]; [eauto|].
    destruct (p c); [|eauto].
    destruct (run (Star p :: pat) (Some c) s); eauto.
  - exists (S m). rewrite run_star, Hp, IH. reflexivity.
  - exists m. rewrite run_lazy, IH. reflexivity.
  - rewrite run_lazy. destruct (run pat prev (c :: s)); [eauto|].
    rewrite Hp, IH. simpl. eauto.
  - simpl. destruct s as [|c s]; [eauto|].
    destruct (p c); [|eauto].
    destruct (run pat (Some c) s); eauto.
  - exists (S m). simpl. rewrite Hp, IH. reflexivity.
  - exists m. exact IH.
  - exists m. exact IH.
  - exists m. simpl. rewrite Hx. exact IH.
Qed.

Lemma run_matches pat prev s :
  (exists n, run pat prev s = Some n) <-> (exists n, Matches pat prev s n).
Proof.
  split; intros [n H].
  - exists n. apply run_sound, H.
  - eapply run_complete, H.
Qed.

Lemma search_bos_later pat c s : search (Bos :: pat) (Some c) s = None.
Proof.
  revert c. induction s as [|d s IH]; intros c; simpl; [reflexivity|].
  rewrite IH. reflexivity.
Qed.

(** A pattern that begins with [^] is tried at index 0 only. *)
Lemma test_bos pat s :
  test (Bos :: pat) s = true <-> exists n, Matches pat None s n.
Proof.
  unfold test. rewrite <- run_matches.
  destruct s as [|c s]; simpl.
  - destruct (run pat None []); split; eauto; try discriminate.
    intros [n H]; discriminate.
  - rewrite search_bos_later.
    destruct (run pat None (c :: s)); split; eauto; try discriminate.
    intros [n H]; discriminate.
Qed.

Lemma matches_star_inv p pat prev s n :
  Matches (Star p :: pat) prev s n ->
  exists pre rest m,
    s = pre ++ rest /\ forallb p pre = true /\
    Matches pat (prevAfter prev pre) rest m /\ n = length pre + m.
Proof.
  remember (Star p :: pat) as sp eqn:E.
  induction 1; try discriminate; injection E as -> ->.
  - exists [], s, n. simpl. auto.
  - destruct (IHMatches eq_refl) as (pre & rest & m & -> & Hall & Hm & ->).
    exists (c :: pre), rest, m. simpl. rewrite H, Hall. auto.
Qed.

Lemma matches_star_intro p pat pre : forall prev rest m,
  forallb p pre = true ->
  Matches pat (prevAfter prev pre) rest m ->
  Matches (Star p :: pat) prev (pre ++ rest) (length pre + m).
Proof.
  induction pre as [|c pre IH]; intros prev rest m Hall Hm; simpl in *.
  - apply M_star_stop, Hm.
  - apply andb_true_iff in Hall as [Hc Hall].
    apply M_star_more; auto.
Qed.

Lemma matches_cls_inv p pat prev s n :
  Matches (Cls p :: pat) prev s n ->
  exists c s' m, s = c :: s' /\ p c = true /\ Matches pat (Some c) s' m /\ n = S m.
Proof. inversion 1; subst; eauto 8. Qed.

Lemma matches_eos_inv pat prev s n :
  Matches (Eos :: pat) prev s n -> s = [] /\ Matches pat prev [] n.
Proof. inversion 1; subst; auto. Qed.

Lemma matches_star_eos p s : forall prev,
  forallb p s = true -> Matches [Star p; Eos] prev s (length s).
Proof.
  induction s as [|c s IH]; intros prev H; simpl in *.
  - apply M_star_stop, M_eos, M_nil.
  - apply andb_true_iff in H as [Hc H]. apply M_star_more; auto.
Qed.

End ReFacts.

(* ================================================================== *)
(** * The block segmenter *)
(* ================================================================== *)

Module SegmenterFacts.

Import Re ReSpec ReFacts JsFacts Readout ReadoutSpec.

Lemma pipe_not_space : isWhiteSpace pipe = false.
Proof. reflexivity. Qed.

Lemma space_not_pipe s : forallb isWhiteSpace s = true -> ~ In pipe s.
Proof.
  intros H Hin. rewrite forallb_forall in H. apply H in Hin.
  rewrite pipe_not_space in Hin. discriminate.
Qed.

(** The shape [/^[\s]*\|.*\|[\s]*$/] accepts. *)
Lemma tableRowRe_iff line :
  test tableRowRe line = true <->
  exists pre mid post,
    line = pre ++ pipe :: mid ++ pipe :: post /\
    forallb isWhiteSpace pre = true /\ forallb dot mid = true /\
    forallb isWhiteSpace post = true.
Proof.
  unfold tableRowRe. rewrite test_bos. split.
  - intros [n H].
    apply matches_star_inv in H as (pre & r1 & n1 & -> & Hpre & H & _).
    apply matches_cls_inv in H as (c1 & r2 & n2 & -> & Hc1 & H & _).
    apply matches_star_inv in H as (mid & r3 & n3 & -> & Hmid & H & _).
    apply matches_cls_inv in H as (c2 & r4 & n4 & -> & Hc2 & H & _).
    apply matches_star_inv in H as (post & r5 & n5 & -> & Hpost & H & _).
    apply matches_eos_inv in H as [-> _].
    apply isChar_eq in Hc1, Hc2. subst c1 c2.
    exists pre, mid, post. rewrite app_nil_r. auto.
  - intros (pre & mid & post & -> & Hpre & Hmid & Hpost).
    eexists.
    apply matches_star_intro; [exact Hpre|].
    apply M_cls; [reflexivity|].
    apply matches_star_intro; [exact Hmid|].
    apply M_cls; [reflexivity|].
    apply matches_star_eos, Hpost.
Qed.

(** The conjunct [line.includes('|')] never decides. *)
Lemma isTableRow_regex line : isTableRow line = test tableRowRe line.
Proof.
  unfold isTableRow. destruct (test tableRowRe line) eqn:E; [|reflexivity].
  apply tableRowRe_iff in E as (pre & mid & post & -> & _).
  simpl. apply includes_char, in_or_app. right. left. reflexivity.
Qed.

(** A table row, seen after [trim]. *)
Lemma isTableRow_trim line :
  isTableRow line = true <->
  exists mid, trim line = pipe :: mid ++ [pipe] /\ forallb dot mid = true.
Proof.
  rewrite isTableRow_regex, tableRowRe_iff. split.
  - intros (pre & mid & post & -> & Hpre & Hmid & Hpost).
    exists mid. split; [|exact Hmid].
    apply trim_between; auto using pipe_not_space.
  - intros (mid & E & Hmid).
    destruct (trim_split line) as (lead & trail & El & Hl & Ht).
    exists lead, mid, trail. rewrite E in El.
    repeat split; auto.
    rewrite El. simpl. rewrite <- app_assoc. reflexivity.
Qed.

Lemma isTableRow_shape line :
  isTableRow line = true ->
  exists lead mid trail,
    line = lead ++ pipe :: mid ++ pipe :: trail /\
    trim line = pipe :: mid ++ [pipe] /\
    forallb isWhiteSpace lead = true /\ forallb dot mid = true /\
    forallb isWhiteSpace trail = true.
Proof.
  rewrite isTableRow_regex, tableRowRe_iff.
  intros (pre & mid & post & -> & Hpre & Hmid & Hpost).
  exists pre, mid, post. repeat split; auto.
  apply trim_between; auto using pipe_not_space.
Qed.

Lemma tableRow_not_blank line : isTableRow line = true -> isBlank line = false.
Proof.
  intros H. apply isTableRow_trim in H as (mid & E & _).
  unfold isBlank. rewrite E. reflexivity.
Qed.

(** What [/^[| \-:]+$/] accepts. *)
Lemma separatorRe_iff t :
  test separatorRe t = true <-> t <> [] /\ forallb separatorClass t = true.
Proof.
  unfold separatorRe, Plus. simpl app. rewrite test_bos. split.
  - intros [n H].
    apply matches_cls_inv in H as (c & r & m & -> & Hc & H & _).
    apply matches_star_inv in H as (pre & r' & m' & -> & Hpre & H & _).
    apply matches_eos_inv in H as [-> _].
    split; [discriminate|]. simpl. rewrite Hc, forallb_app, Hpre. reflexivity.
  - intros [Hne Hall]. destruct t as [|c t]; [congruence|].
    simpl in Hall. apply andb_true_iff in Hall as [Hc Ht].
    eexists. apply M_cls; [exact Hc|].
    apply matches_star_eos, Ht.
Qed.

(** The cells of a table row are the trimmed fields between its outer
    pipes. *)
Lemma rowCells_shape lead mid trail :
  forallb isWhiteSpace lead = true -> forallb isWhiteSpace trail = true ->
  rowCells (lead ++ pipe :: mid ++ pipe :: trail) = map trim (split pipe mid).
Proof.
  intros Hl Ht. unfold rowCells. rewrite filter_index_inner. f_equal.
  fold pipe.
  rewrite split_app, split_app.
  rewrite (@split_no_sep pipe lead) by (apply space_not_pipe, Hl).
  rewrite (@split_no_sep pipe trail) by (apply space_not_pipe, Ht).
  simpl. apply removelast_last.
Qed.

Lemma rowCells_not_nil line : isTableRow line = true -> rowCells line <> [].
Proof.
  intros H. apply isTableRow_shape in H as (lead & mid & trail & -> & _ & Hl & _ & Ht).
  rewrite rowCells_shape by assumption.
  intros E. apply map_eq_nil in E. exact (split_not_nil _ _ E).
Qed.

(** *** The loop *)

Lemma flushTable_data st :
  dataOf (flushTable st) = dataOf st /\ currentTable (flushTable st) = [].
Proof.
  unfold flushTable, dataOf. destruct st as [bs [|r ct]]; simpl.
  - auto.
  - rewrite flat_map_app. simpl. rewrite !app_nil_r. auto.
Qed.

Lemma segmentLine_data st line :
  dataOf (segmentLine st line) = dataOf st ++ lineData line.
Proof.
  unfold segmentLine, lineData, isDiscarded.
  destruct (isTableRow line) eqn:Hrow.
  - rewrite (tableRow_not_blank _ Hrow). simpl.
    destruct (isSeparatorRow line); [symmetry; apply app_nil_r|].
    destruct (rowCells line) as [|c cs] eqn:Hc;
      [exfalso; exact (rowCells_not_nil _ Hrow Hc)|].
    unfold dataOf. simpl. rewrite map_app, app_assoc. reflexivity.
  - rewrite andb_false_l, orb_false_r. unfold isBlank.
    destruct (flushTable_data st) as [Hd Hc].
    destruct (str_eqb (trim line) []); simpl.
    + rewrite Hd. symmetry. apply app_nil_r.
    + rewrite <- Hd. unfold dataOf. simpl. rewrite Hc, flat_map_app. simpl.
      rewrite !app_nil_r. reflexivity.
Qed.

Lemma fold_segmentLine_data lines : forall st,
  dataOf (fold_left segmentLine lines st) = dataOf st ++ flat_map lineData lines.
Proof.
  induction lines as [|line lines IH]; intros st; simpl.
  - symmetry. apply app_nil_r.
  - rewrite IH, segmentLine_data, <- app_assoc. reflexivity.
Qed.

Lemma segmentLines_data lines :
  flat_map blockData (segmentLines lines) = flat_map lineData lines.
Proof.
  unfold segmentLines.
  destruct (flushTable_data (fold_left segmentLine lines (mkSeg [] []))) as [Hd Hc].
  rewrite fold_segmentLine_data in Hd. simpl in Hd. rewrite <- Hd.
  unfold dataOf. rewrite Hc. simpl. symmetry. apply app_nil_r.
Qed.

Lemma blockCells_data b : blockCells b = flat_map datumCells (blockData b).
Proof.
  destruct b as [line|rows]; simpl; [reflexivity|].
  induction rows as [|r rows IH]; simpl; [reflexivity|]. rewrite IH. reflexivity.
Qed.

Lemma flat_map_flat_map {A B C} (f : A -> list B) (g : B -> list C) l :
  flat_map g (flat_map f l) = flat_map (fun x => flat_map g (f x)) l.
Proof.
  induction l as [|x l IH]; simpl; [reflexivity|].
  rewrite flat_map_app, IH. reflexivity.
Qed.

Lemma segmentLines_cells lines :
  flat_map blockCells (segmentLines lines) = flat_map lineCells lines.
Proof.
  rewrite (flat_map_ext _ _ blockCells_data).
  rewrite <- flat_map_flat_map, segmentLines_data, flat_map_flat_map.
  reflexivity.
Qed.

(** A separator row of the code is one of the specification. *)
Lemma separator_spec line :
  isTableRow line = true -> isSeparatorRow line = true ->
  specSeparatorRow line = true.
Proof.
  intros Hrow Hsep. unfold specSeparatorRow.
  rewrite <- isTableRow_regex, Hrow. simpl.
  apply separatorRe_iff in Hsep as [_ Hall].
  destruct (trim_split line) as (lead & trail & E & Hl & Ht).
  rewrite E, !forallb_app. 
  assert (W : forall s, forallb isWhiteSpace s = true -> forallb specSeparatorClass s = true).
  { intros s Hs. rewrite forallb_forall in *. intros c Hc.
    unfold specSeparatorClass. rewrite (Hs c Hc). apply orb_true_r. }
  rewrite (W _ Hl), (W _ Ht), andb_true_r. simpl.
  rewrite forallb_forall in *. intros c Hc. specialize (Hall c Hc).
  unfold separatorClass, specSeparatorClass in *.
  destruct (isChar " " c) eqn:Es.
  - apply isChar_eq in Es. subst c. reflexivity.
  - destruct (isChar "|" c), (isChar "-" c), (isChar ":" c);
      simpl in *; auto; discriminate.
Qed.

(** The scenario of the specification gives its four blocks. *)
Example scenario_blocks :
  segment scenario =
  [ Text (lit "GIVEN:"); Text (lit "x=5");
    Table [[lit "a"; lit "b"]; [lit "1"; lit "2"]];
    Text (lit "FINAL ANSWER: 7") ].
Proof. reflexivity. Qed.

(** Consecutive rows make one table; a text line between two groups of rows
    makes two. *)
Example table_groups :
  segmentLines [lit "|a|b|"; lit "|c|d|"; lit "and"; lit "|e|f|"] =
  [ Table [[lit "a"; lit "b"]; [lit "c"; lit "d"]]; Text (lit "and");
    Table [[lit "e"; lit "f"]] ].
Proof. reflexivity. Qed.

End SegmenterFacts.

Module SegmenterClaims.

Import Re JsFacts Readout ReadoutSpec SegmenterFacts.

(** C1. Segmentation is lossless.  For every text, the row data of the
    blocks, read in order, is the row data of the source lines, read in
    order, with the discarded lines left out; this holds for the rows and for
    the flat sequence of text contents and cells.  A line is discarded only
    when it is blank or a separator row, so every other line keeps its data:
    a text line as it is, a table row as the trimmed fields between its outer
    pipes, from which the row is recovered up to white space. *)
Theorem segmentation_lossless (T : str) :
  flat_map blockData (segment T) = flat_map lineData (split (ch "010") T) /\
  flat_map blockCells (segment T) = flat_map lineCells (split (ch "010") T) /\
  (forall line,
     lineData line = [] -> isBlank line = true \/ specSeparatorRow line = true) /\
  (forall line,
     isBlank line = false -> specSeparatorRow line = false ->
     lineData line = [if isTableRow line then Row (rowCells line) else Line line]) /\
  (forall line,
     isTableRow line = true ->
     exists lead mid trail,
       line = lead ++ pipe :: mid ++ pipe :: trail /\
       forallb isWhiteSpace lead = true /\ forallb isWhiteSpace trail = true /\
       rowCells line = map trim (split pipe mid) /\
       join [pipe] (split pipe mid) = mid).
Proof.
  assert (D : forall line, isDiscarded line = true ->
                isBlank line = true \/ specSeparatorRow line = true).
  { unfold isDiscarded. intros line H.
    apply orb_true_iff in H as [H|H]; [left; exact H|right].
    apply andb_true_iff in H as [H1 H2]. apply separator_spec; assumption. }
  repeat split.
  - apply segmentLines_data.
  - apply segmentLines_cells.
  - intros line H. apply D. unfold lineData in H.
    destruct (isDiscarded line); [reflexivity|].
    destruct (isTableRow line); discriminate.
  - intros line Hb Hs. unfold lineData.
    destruct (isDiscarded line) eqn:Hd.
    + destruct (D _ Hd); congruence.
    + destruct (isTableRow line); reflexivity.
  - intros line H.
    apply isTableRow_shape in H as (lead & mid & trail & -> & _ & Hl & _ & Ht).
    exists lead, mid, trail. repeat split; auto.
    + apply rowCells_shape; assumption.
    + apply join_split.
Qed.



(** C3, as the specification states it, fails: a row with a tab between
    its pipes is made of pipes, dashes and white space only, and the code
    keeps it as a table row of one cell. *)
Lemma separator_with_tab_is_kept :
  specSeparatorRow (lit "|-" ++ [9%N] ++ lit "|") = true /\
  segment (lit "|-" ++ [9%N] ++ lit "|") = [Table [[lit "-"]]].
Proof. split; reflexivity. Qed.

(** C3, amended.  A line of the shape [^\s*\|.*\|\s*$] that, once trimmed,
    is made of pipes, dashes, colons and space characters (U+0020) only is
    discarded: the state of the segmenter after it is the state before it, so
    it adds no cell and no block and neither closes nor opens a table, and
    the blocks of a text are those of the text without that line. *)
Theorem separator_row_discarded (line : str) :
  test tableRowRe line = true ->
  forallb separatorClass (trim line) = true ->
  (forall st, segmentLine st line = st) /\
  (forall before after,
     segmentLines (before ++ line :: after) = segmentLines (before ++ after)).
Proof.
  intros Hre Hall.
  assert (Hrow : isTableRow line = true) by (rewrite isTableRow_regex; exact Hre).
  assert (Hsep : isSeparatorRow line = true).
  { apply separatorRe_iff. split; [|exact Hall].
    apply isTableRow_trim in Hrow as (mid & E & _). rewrite E. discriminate. }
  assert (Hst : forall st, segmentLine st line = st).
  { intros st. unfold segmentLine. rewrite Hrow, Hsep. reflexivity. }
  split; [exact Hst|].
  intros before after. unfold segmentLines.
  rewrite !fold_left_app. simpl. rewrite Hst. reflexivity.
Qed.

Lemma separator_row_discarded_witness :
  segmentLines [lit "| a | b |"; lit "|---|:-:|"; lit "| 1 | 2 |"]
  = segmentLines [lit "| a | b |"; lit "| 1 | 2 |"].
Proof.
  exact (proj2 (separator_row_discarded (lit "|---|:-:|") eq_refl eq_refl)
           [lit "| a | b |"] [lit "| 1 | 2 |"]).
Defined.

End SegmenterClaims.

(* ================================================================== *)
(** * The progressive revealer *)
(* ================================================================== *)

Module RevealFacts.

Import Readout ReadoutSpec.

Lemma clearTimeout_same h : clearTimeout h [h] = [].
Proof. unfold clearTimeout. simpl. rewrite Nat.eqb_refl. reflexivity. Qed.

Lemma Inv_Quiet c : Inv c -> Quiet c.
Proof.
  intros [_ H]. unfold Quiet.
  destruct (visibleBlockCount c <? length (contentBlocks c)).
  - destruct H as (h & -> & ->). apply clearTimeout_same.
  - destruct H as [-> ->]. reflexivity.
Qed.

Lemma revealEffect_fields c :
  text (revealEffect c) = text c /\
  contentBlocks (revealEffect c) = contentBlocks c /\
  visibleBlockCount (revealEffect c) = visibleBlockCount c.
Proof.
  unfold revealEffect.
  destruct (visibleBlockCount c <? length (contentBlocks c)); simpl; auto.
Qed.

Lemma revealEffect_Inv c :
  Quiet c -> visibleBlockCount c <= length (contentBlocks c) ->
  Inv (revealEffect c).
Proof.
  intros Hq Hb.
  destruct (revealEffect_fields c) as (Et & Eb & Ev).
  constructor; rewrite ?Eb, ?Ev, ?Et; auto.
  unfold revealEffect, Quiet in *.
  destruct (visibleBlockCount c <? length (contentBlocks c)); simpl.
  - exists (nextHandle c). destruct (cleanup c); rewrite Hq; auto.
  - destruct (cleanup c); auto.
Qed.

Lemma mount_unfold t :
  mount t = revealEffect (mkComponent t (segment t) 0 [] None 0).
Proof. reflexivity. Qed.

Lemma mount_Inv t : Inv (mount t).
Proof.
  rewrite mount_unfold. apply revealEffect_Inv; simpl; auto using Nat.le_0_l.
  reflexivity.
Qed.

Lemma mount_fields t :
  text (mount t) = t /\ contentBlocks (mount t) = segment t /\
  visibleBlockCount (mount t) = 0.
Proof.
  rewrite mount_unfold.
  match goal with |- text (revealEffect ?x) = _ /\ _ =>
    destruct (revealEffect_fields x) as (F1 & F2 & F3) end.
  rewrite F1, F2, F3. auto.
Qed.

Lemma setText_changed t c :
  str_eqb t (text c) = false ->
  text (setText t c) = t /\ contentBlocks (setText t c) = segment t /\
  visibleBlockCount (setText t c) = 0.
Proof.
  intros E. unfold setText. rewrite E.
  match goal with |- text (revealEffect ?x) = _ /\ _ =>
    destruct (revealEffect_fields x) as (F1 & F2 & F3) end.
  rewrite F1, F2, F3. auto.
Qed.

Lemma setText_Synced t c : Synced c -> Synced (setText t c).
Proof.
  intros H. destruct (str_eqb t (text c)) eqn:E.
  - unfold setText. rewrite E. exact H.
  - destruct (setText_changed _ _ E) as (E1 & E2 & _).
    unfold Synced. rewrite E1, E2. reflexivity.
Qed.

Lemma setText_Inv t c : Inv c -> Inv (setText t c).
Proof.
  intros H. unfold setText. destruct (str_eqb t (text c)); [exact H|].
  apply revealEffect_Inv; simpl; auto using Nat.le_0_l.
  apply Inv_Quiet in H. exact H.
Qed.

Lemma tick_pending c h :
  timers c = [h] ->
  tick c = revealEffect
             (mkComponent (text c) (contentBlocks c) (S (visibleBlockCount c))
                [] (cleanup c) (nextHandle c)).
Proof.
  intros E. unfold tick, fire. rewrite E. cbn [existsb].
  rewrite Nat.eqb_refl, clearTimeout_same. reflexivity.
Qed.

(** What one tick does to a component between two events. *)
Lemma tick_step c :
  Inv c ->
  Inv (tick c) /\
  text (tick c) = text c /\
  contentBlocks (tick c) = contentBlocks c /\
  visibleBlockCount (tick c) =
    (if visibleBlockCount c <? length (contentBlocks c)
     then S (visibleBlockCount c) else visibleBlockCount c) /\
  (visibleBlockCount c = length (contentBlocks c) -> tick c = c).
Proof.
  intros H. pose proof H as [Hb Ht].
  destruct (visibleBlockCount c <? length (contentBlocks c)) eqn:E.
  - destruct Ht as (h & Et & Ec). apply Nat.ltb_lt in E.
    rewrite (tick_pending _ Et).
    match goal with |- Inv (revealEffect ?x) /\ _ =>
      destruct (revealEffect_fields x) as (F1 & F2 & F3);
      assert (Hi : Inv (revealEffect x)) end.
    { apply revealEffect_Inv; cbn [text contentBlocks visibleBlockCount]; auto.
      unfold Quiet. cbn [cleanup timers]. rewrite Ec. reflexivity. }
    cbn [text contentBlocks visibleBlockCount] in F1, F2, F3.
    rewrite F1, F2, F3.
    split; [exact Hi|]. repeat (split; [reflexivity|]). intros; lia.
  - destruct Ht as [Et Ec]. unfold tick. rewrite Et. auto.
Qed.

Lemma handle_Inv c e : Inv c -> Inv (handle c e).
Proof.
  intros H. destruct e as [t|]; simpl.
  - apply setText_Inv, H.
  - apply tick_step, H.
Qed.

Lemma handle_Synced c e : Inv c -> Synced c -> Synced (handle c e).
Proof.
  intros Hi H. destruct e as [t|]; simpl.
  - apply setText_Synced, H.
  - destruct (tick_step Hi) as (_ & Et & Eb & _).
    unfold Synced. rewrite Et, Eb. exact H.
Qed.

Lemma reachable_Inv t events :
  Inv (fold_left handle events (mount t)) /\
  Synced (fold_left handle events (mount t)).
Proof.
  assert (G : forall c, Inv c -> Synced c ->
                Inv (fold_left handle events c) /\
                Synced (fold_left handle events c)).
  { induction events as [|e events IH]; intros c H S; simpl; [auto|].
    apply IH; [apply handle_Inv, H | apply handle_Synced; assumption]. }
  apply G; [apply mount_Inv|]. unfold Synced.
  destruct (mount_fields t) as (-> & -> & _). reflexivity.
Qed.

(** [k] ticks from a component between two events. *)
Lemma ticks c k :
  Inv c ->
  Inv (Nat.iter k tick c) /\
  contentBlocks (Nat.iter k tick c) = contentBlocks c /\
  visibleBlockCount (Nat.iter k tick c) =
    Nat.min (visibleBlockCount c + k) (length (contentBlocks c)).
Proof.
  intros H. pose proof (inv_bound H) as Hb.
  induction k as [|k (Hi & Eb & Ev)]; simpl.
  - split; [exact H|]. split; [reflexivity|]. rewrite Nat.add_0_r. lia.
  - destruct (tick_step Hi) as (Hi' & _ & Eb' & Ev' & _).
    split; [exact Hi'|]. split; [congruence|].
    rewrite Ev', Eb, Ev.
    destruct (Nat.ltb_spec (Nat.min (visibleBlockCount c + k) (length (contentBlocks c)))
                (length (contentBlocks c))); lia.
Qed.

Lemma ticks_done c j :
  Inv c -> visibleBlockCount c = length (contentBlocks c) ->
  Nat.iter j tick c = c.
Proof.
  intros H E. induction j as [|j IH]; simpl; [reflexivity|].
  rewrite IH. apply tick_step; assumption.
Qed.

Lemma iter_add {A} (f : A -> A) n m x :
  Nat.iter (n + m) f x = Nat.iter m f (Nat.iter n f x).
Proof.
  induction m as [|m IH]; simpl.
  - rewrite Nat.add_0_r. reflexivity.
  - rewrite Nat.add_succ_r. simpl. rewrite IH. reflexivity.
Qed.

(** From a component between two events, the remaining blocks are revealed
    one per tick, and then nothing moves. *)
Lemma ticks_to_end c :
  Inv c ->
  let N := length (contentBlocks c) in
  let v := visibleBlockCount c in
  (forall k, visibleBlockCount (Nat.iter k tick c) = Nat.min (v + k) N) /\
  visibleBlockCount (Nat.iter (N - v) tick c) = N /\
  timers (Nat.iter (N - v) tick c) = [] /\
  (forall j, Nat.iter (N - v + j) tick c = Nat.iter (N - v) tick c).
Proof.
  intros H N v. pose proof (inv_bound H) as Hb.
  destruct (ticks (N - v) H) as (Hi & Eb & Ev).
  assert (Ev' : visibleBlockCount (Nat.iter (N - v) tick c) = N) by (subst N v; lia).
  split; [|split; [|split]].
  - intros k. apply ticks, H.
  - exact Ev'.
  - pose proof (inv_timer Hi) as Ht. rewrite Eb, Ev' in Ht. fold N in Ht.
    rewrite Nat.ltb_irrefl in Ht. apply Ht.
  - intros j. rewrite iter_add. apply ticks_done; [exact Hi|]. 
    rewrite Eb. exact Ev'.
Qed.

(** C4. For a block sequence of length [N] just installed (count at 0,
    second effect run), the count after [k] ticks is [min k N]: it is [N]
    after [N] ticks and not before; then no timeout is pending and further
    ticks leave the component as it is.  Mounting on a text is such a start,
    with the blocks of that text. *)
Theorem reveal_reaches_end (t : str) (bs : list ContentBlock) (h : nat) :
  let c0 := revealEffect (mkComponent t bs 0 [] None h) in
  let N := length bs in
  (forall k, visibleBlockCount (Nat.iter k tick c0) = Nat.min k N) /\
  visibleBlockCount (Nat.iter N tick c0) = N /\
  (forall k, k < N -> visibleBlockCount (Nat.iter k tick c0) < N) /\
  timers (Nat.iter N tick c0) = [] /\
  (forall j, Nat.iter (N + j) tick c0 = Nat.iter N tick c0) /\
  mount t = revealEffect (mkComponent t (segment t) 0 [] None 0).
Proof.
  intros c0 N.
  assert (Hi : Inv c0).
  { apply revealEffect_Inv; simpl; auto using Nat.le_0_l. reflexivity. }
  destruct (revealEffect_fields (mkComponent t bs 0 [] None h)) as (_ & Eb & Ev).
  fold c0 in Eb, Ev. simpl in Eb, Ev.
  destruct (ticks_to_end Hi) as (H1 & H2 & H3 & H4).
  rewrite Eb, Ev in H1, H2, H3, H4. fold N in H1, H2, H3, H4.
  rewrite Nat.sub_0_r in H2, H3, H4.
  split; [exact H1|]. split; [exact H2|].
  split; [intros k Hk; rewrite H1; simpl; lia|].
  split; [exact H3|]. split; [exact H4|]. reflexivity.
Qed.

(** C5. After the mount and after every event that follows it (a new
    source text, a tick), the count is between 0 and the number of blocks and
    the blocks are those of the current text; the count is 0 after the mount
    and after every change of the source text, which is when the blocks are
    rebuilt. *)
Theorem reveal_invariant (t0 : str) (events : list Event) :
  let c := fold_left handle events (mount t0) in
  0 <= visibleBlockCount c <= length (contentBlocks c) /\
  contentBlocks c = segment (text c) /\
  (contentBlocks (mount t0) = segment t0 /\ visibleBlockCount (mount t0) = 0) /\
  (forall t,
     if str_eqb t (text c) then setText t c = c
     else contentBlocks (setText t c) = segment t /\
          visibleBlockCount (setText t c) = 0).
Proof.
  intros c. destruct (reachable_Inv t0 events) as [Hi Hs]. fold c in Hi, Hs.
  split; [split; [lia|apply Hi]|].
  split; [exact Hs|].
  split; [apply mount_fields|].
  intros t. destruct (str_eqb t (text c)) eqn:E.
  - unfold setText. rewrite E. reflexivity.
  - apply setText_changed, E.
Qed.

(** The scenario of the specification is revealed over four ticks. *)
Example scenario_revealed :
  map (fun k => visibleBlockCount (Nat.iter k tick (mount scenario)))
    [0; 1; 2; 3; 4; 5] = [0; 1; 2; 3; 4; 4] /\
  visibleBlocks (Nat.iter 4 tick (mount scenario)) = segment scenario /\
  timers (Nat.iter 3 tick (mount scenario)) = [3] /\
  timers (Nat.iter 4 tick (mount scenario)) = [].
Proof. repeat split; reflexivity. Qed.

End RevealFacts.

(* ================================================================== *)
(** * The math fragment renderer *)
(* ================================================================== *)

Module RendererFacts.

Import Re JsFacts Readout ReadoutSpec.

Lemma isMathPart_no_dollar part : ~ In dollar part -> isMathPart part = false.
Proof.
  intros H. unfold isMathPart.
  destruct (startsWith part (lit "$")) eqn:E; [|reflexivity].
  apply startsWith_iff in E as [r ->]. exfalso. apply H. left. reflexivity.
Qed.

Lemma run_mathRe_other prev c s : c <> dollar -> run mathRe prev (c :: s) = None.
Proof.
  intros H. unfold mathRe. cbn [run].
  destruct (isChar "$" c) eqn:E; [|reflexivity].
  apply isChar_eq in E. contradiction.
Qed.

(** The lazy star stops at the first closing dollar sign. *)
Lemma run_lazy_until_dollar mid : forall prev rest,
  forallb dot mid = true -> ~ In dollar mid ->
  run [LazyStar dot; Cls (isChar "$")] prev (mid ++ dollar :: rest)
  = Some (S (length mid)).
Proof.
  induction mid as [|c mid IH]; intros prev rest Hdot Hd;
    rewrite ReFacts.run_lazy.
  - reflexivity.
  - simpl in Hdot. apply andb_true_iff in Hdot as [Hc Hdot].
    assert (En : isChar "$" c = false).
    { destruct (isChar "$" c) eqn:E; [|reflexivity].
      apply isChar_eq in E. exfalso. apply Hd. left. rewrite E. reflexivity. }
    cbn [app run]. rewrite En, Hc.
    rewrite IH by (auto; intros H; apply Hd; right; exact H).
    reflexivity.
Qed.

Lemma run_mathRe_first mid prev rest :
  forallb dot mid = true -> ~ In dollar mid ->
  run mathRe prev (dollar :: mid ++ dollar :: rest) = Some (S (S (length mid))).
Proof.
  intros Hdot Hd.
  change (option_map S
            (run [LazyStar dot; Cls (isChar "$")] (Some dollar)
               (mid ++ dollar :: rest)) = Some (S (S (length mid)))).
  rewrite run_lazy_until_dollar by assumption. reflexivity.
Qed.

(** Without a dollar sign nothing is split off. *)
Lemma split_from_no_dollar s : forall cur prev,
  ~ In dollar s -> split_from mathRe 0 cur prev s = [rev cur ++ s].
Proof.
  induction s as [|c s IH]; intros cur prev H.
  - simpl. rewrite app_nil_r. reflexivity.
  - cbn [split_from]. rewrite run_mathRe_other by (intros ->; apply H; left; reflexivity).
    rewrite IH by (intros Hin; apply H; right; exact Hin).
    simpl. rewrite <- app_assoc. reflexivity.
Qed.

Lemma splitCapture_no_dollar line :
  ~ In dollar line -> splitCapture mathRe line = [line].
Proof.
  intros H. destruct line as [|c line]; [reflexivity|].
  unfold splitCapture. apply (@split_from_no_dollar (c :: line) [] None H).
Qed.

Section Katex.

Variable renderToString : str -> Outcome str.

Lemma renderPart_returns part :
  renderPart renderToString part = Returned (spanOf renderToString part).
Proof.
  unfold renderPart, spanOf. destruct (isMathPart part); [|reflexivity].
  destruct (renderToString (slice_1_m1 part)); reflexivity.
Qed.

Lemma mapM_renderPart parts :
  mapM (renderPart renderToString) parts =
  Returned (map (spanOf renderToString) parts).
Proof.
  induction parts as [|p parts IH]; simpl; [reflexivity|].
  rewrite renderPart_returns, IH. reflexivity.
Qed.

Lemma renderTextWithMath_returns line :
  renderTextWithMath renderToString line =
  Returned (if is_empty line then None
            else Some (map (spanOf renderToString) (splitCapture mathRe line))).
Proof.
  unfold renderTextWithMath. destruct (is_empty line); [reflexivity|].
  rewrite mapM_renderPart. reflexivity.
Qed.

End Katex.

(** C6. Whatever the typesetter does on each input (return markup or
    throw), the renderer returns on every line; a part handed to the
    typesetter on which it throws becomes the raw part, flagged, and the
    other parts are not affected. *)
Theorem renderer_never_raises (renderToString : str -> Outcome str) (line : str) :
  (exists spans, renderTextWithMath renderToString line = Returned spans) /\
  (forall part e,
     isMathPart part = true ->
     renderToString (slice_1_m1 part) = Raised e ->
     renderPart renderToString part = Returned (Flagged part)) /\
  renderTextWithMath (fun _ => Raised (lit "ParseError")) line =
    Returned (if is_empty line then None
              else Some (map (fun part => if isMathPart part then Flagged part
                                          else Plain part)
                           (splitCapture mathRe line))).
Proof.
  split; [|split].
  - eexists. apply renderTextWithMath_returns.
  - intros part e Hm He. rewrite renderPart_returns. unfold spanOf.
    rewrite Hm, He. reflexivity.
  - rewrite renderTextWithMath_returns. reflexivity.
Qed.

(** C7, as the specification states it, fails on the empty line, which has
    no dollar sign: the renderer returns [null], not one plain fragment.  An
    empty line reaches the renderer as an empty table cell. *)
Lemma empty_line_renders_nothing :
  ~ In dollar [] /\
  (forall renderToString, renderTextWithMath renderToString [] = Returned None) /\
  segment (lit "| | x |") = [Table [[ []; lit "x" ]]].
Proof. repeat split; auto. Qed.

(** C7, amended.  On every line that is not empty and has no dollar sign
    the renderer produces one plain fragment, the line itself; a part that
    does not both start and end with a dollar sign passes unchanged as a
    plain fragment; and the line ["$x^2$"] produces one math fragment, of
    source [x^2], between two empty plain fragments. *)
Theorem plain_text_passes_through (renderToString : str -> Outcome str) :
  (forall line,
     line <> [] -> ~ In dollar line ->
     renderTextWithMath renderToString line = Returned (Some [Plain line])) /\
  (forall part,
     isMathPart part = false ->
     renderPart renderToString part = Returned (Plain part)) /\
  splitCapture mathRe (lit "$x^2$") = [ []; lit "$x^2$"; [] ] /\
  slice_1_m1 (lit "$x^2$") = lit "x^2" /\
  renderTextWithMath renderToString (lit "$x^2$") =
    Returned (Some [ Plain [];
                     match renderToString (lit "x^2") with
                     | Returned html => Typeset html
                     | Raised _ => Flagged (lit "$x^2$")
                     end;
                     Plain [] ]).
Proof.
  split; [|split; [|split; [|split]]].
  - intros line Hne Hd. rewrite renderTextWithMath_returns.
    destruct line as [|c line]; [congruence|]. cbn [is_empty].
    rewrite splitCapture_no_dollar by exact Hd.
    simpl. unfold spanOf. rewrite isMathPart_no_dollar by exact Hd. reflexivity.
  - intros part H. rewrite renderPart_returns. unfold spanOf. rewrite H. reflexivity.
  - reflexivity.
  - reflexivity.
  - rewrite renderTextWithMath_returns. reflexivity.
Qed.

End RendererFacts.

(* ================================================================== *)
(** * The block stylist *)
(* ================================================================== *)

Module StylistFacts.

Import JsFacts Readout ReadoutSpec.

Lemma isAnswer_iff line : isAnswer line = true <-> Contains (lit "FINAL ANSWER:") line.
Proof. apply includes_iff. Qed.

Lemma isHeader_iff line :
  isHeader line = true <->
  Contains (lit "GIVEN:") line \/ Contains (lit "STEPS:") line \/
  StartsWith (lit "Part") line.
Proof.
  unfold isHeader, Contains, StartsWith.
  rewrite !orb_true_iff, !includes_iff, startsWith_iff. tauto.
Qed.

(** C8. The class of a text block: [answer] exactly when it contains
    "FINAL ANSWER:"; otherwise [header] exactly when it contains "GIVEN:" or
    "STEPS:" or starts with "Part"; otherwise [plain]; with the four examples
    of the specification. *)
Theorem stylist_priority (line : str) :
  (styleOf line = answer <-> Contains (lit "FINAL ANSWER:") line) /\
  (styleOf line = header <->
     ~ Contains (lit "FINAL ANSWER:") line /\
     (Contains (lit "GIVEN:") line \/ Contains (lit "STEPS:") line \/
      StartsWith (lit "Part") line)) /\
  (styleOf line = plain <->
     ~ Contains (lit "FINAL ANSWER:") line /\
     ~ (Contains (lit "GIVEN:") line \/ Contains (lit "STEPS:") line \/
        StartsWith (lit "Part") line)) /\
  styleOf (lit "FINAL ANSWER: 42") = answer /\
  styleOf (lit "STEPS:") = header /\
  styleOf (lit "Part A") = header /\
  styleOf (lit "The result is 5") = plain.
Proof.
  rewrite <- isAnswer_iff, <- isHeader_iff. unfold styleOf.
  destruct (isAnswer line), (isHeader line);
    repeat split; intros; try discriminate; try reflexivity;
    try congruence; intuition congruence.
Qed.

End StylistFacts.

(* ================================================================== *)
(** * Starting a quiz *)
(* ================================================================== *)

Module QuizFacts.

Import Readout Quiz.

(** C9. When [generateQuiz] throws, [startQuiz] shows the failure notice
    and leaves what the quiz view reads (the active quiz, the index of the
    current question, the answers, the view mode) as it was before the call;
    the thinking flag is back to false. *)
Theorem startQuiz_failure_is_atomic
    (generateQuiz : str -> nat -> Outcome Quiz.Quiz)
    (topic : str) (level : option nat) (a : App) (e : str) :
  generateQuiz topic (match level with Some l => l | None => 1 end) = Raised e ->
  quizView (startQuiz generateQuiz topic level a) = quizView a /\
  alerts (startQuiz generateQuiz topic level a) = alerts a ++ [failureNotice] /\
  isThinking (startQuiz generateQuiz topic level a) = false /\
  (forall b, quizView (startQuizSettle (Raised e) b) = quizView b).
Proof.
  intros H. unfold startQuiz. rewrite H. repeat split.
Qed.

Lemma startQuiz_failure_witness :
  quizView (startQuiz (fun _ _ => Raised (lit "503")) (lit "Calculus") None initialApp)
  = quizView initialApp.
Proof.
  exact (proj1 (startQuiz_failure_is_atomic (fun _ _ => Raised (lit "503"))
                  (lit "Calculus") None initialApp eq_refl)).
Defined.

End QuizFacts.

(* ================================================================== *)
(** * The local evaluator *)
(* ================================================================== *)

Module SolverFacts.

Import Re Readout Solver.

Section AnyHost.

Variable Num : Type.
Variable eval : str -> Outcome (JsValue Num).
Variable isNaN isInteger : Num -> bool.
Variable toString toFixed6 : Num -> str.
Variable hostLowerCase : str -> str.

(** The substitution turns the constant into [Math.PI], which
    [/Math\.[a-z0-9]+/g] does not remove. *)
Lemma pi_substituted :
  sanitize hostLowerCase (lit "2*pi") = lit "2*pi" /\
  test expressionRegex (lit "2*pi") = true /\
  jsEvalStringOf (lit "2*pi") = lit "2*Math.PI" /\
  replaceAll mathNameRe [] (lit "2*Math.PI") = lit "2*Math.PI" /\
  replaceAll mathNameRe [] (lit "2*Math.sqrt(9)") = lit "2*(9)".
Proof. repeat split; reflexivity. Qed.

(** An expression of digits and operators is answered locally once the host
    evaluates it to a number. *)
Lemma sum_answered_locally x :
  eval (lit "2+2") = Returned (JsNumber x) ->
  isNaN x = false -> isInteger x = true ->
  solveMathProblem eval isNaN isInteger toString toFixed6 hostLowerCase
    (lit "What is 2+2?") None =
  AnsweredLocally
    (mkResult (localContent (lit "2+2") (toString x)) (lit "Quick Compute")).
Proof.
  intros He Hn Hi. unfold solveMathProblem, tryLocalScientificEvaluation.
  change (sanitize hostLowerCase (lit "What is 2+2?")) with (lit "2+2").
  change (test expressionRegex (lit "2+2")) with true.
  change (jsEvalStringOf (lit "2+2")) with (lit "2+2").
  change (test letterRe (replaceAll mathNameRe [] (lit "2+2"))) with false.
  cbn [negb]. rewrite He, Hn. unfold formatResult. rewrite Hi. reflexivity.
Qed.

(** C10. A text-only query made of numbers, operators and the recognized
    constant [pi] (or [e]), which evaluates to a finite number, is expected to
    be answered locally with topic 'Quick Compute'.  The code does not: on
    ["pi"], ["2*pi"] and ["e"] the local evaluator returns [null] whatever the
    host computes, and the query goes to the external service. *)
Theorem constants_are_not_evaluated_locally :
  tryLocalScientificEvaluation eval isNaN isInteger toString toFixed6
    hostLowerCase (lit "pi") = None /\
  tryLocalScientificEvaluation eval isNaN isInteger toString toFixed6
    hostLowerCase (lit "calculate 2*pi") = None /\
  tryLocalScientificEvaluation eval isNaN isInteger toString toFixed6
    hostLowerCase (lit "e") = None /\
  solveMathProblem eval isNaN isInteger toString toFixed6 hostLowerCase
    (lit "pi") None = SentToService (lit "pi") /\
  solveMathProblem eval isNaN isInteger toString toFixed6 hostLowerCase
    (lit "calculate 2*pi") None = SentToService (lit "calculate 2*pi").
Proof. repeat split; reflexivity. Qed.

End AnyHost.

End SolverFacts.

(* ================================================================== *)
(** * What the readout renders *)
(* ================================================================== *)

Module ViewFacts.

Import Re ReSpec ReFacts JsFacts Readout ReadoutSpec SegmenterFacts RevealFacts
       RendererFacts ReadoutView.

(** *** More on [trim] and [split] *)

Lemma dropWhile_head p s c r : dropWhile p s = c :: r -> p c = false.
Proof.
  induction s as [|x s IH]; simpl; [discriminate|].
  destruct (p x) eqn:E; [exact IH|]. intros H. injection H as -> _. exact E.
Qed.

Lemma dropWhile_fixed p s :
  match s with [] => True | c :: _ => p c = false end -> dropWhile p s = s.
Proof. destruct s as [|c s]; simpl; [reflexivity|]. intros ->. reflexivity. Qed.

Lemma trimStart_idem s : trimStart (trimStart s) = trimStart s.
Proof.
  unfold trimStart. apply dropWhile_fixed.
  destruct (dropWhile isWhiteSpace s) eqn:E; [exact I|].
  eapply dropWhile_head, E.
Qed.

Lemma trimEnd_idem s : trimEnd (trimEnd s) = trimEnd s.
Proof.
  unfold trimEnd. rewrite rev_involutive. f_equal.
  apply dropWhile_fixed.
  destruct (dropWhile isWhiteSpace (rev s)) eqn:E; [exact I|].
  eapply dropWhile_head, E.
Qed.

Lemma dropWhile_suffix p s : exists pre, s = pre ++ dropWhile p s.
Proof. destruct (dropWhile_split p s) as (pre & E & _). eauto. Qed.

(** Trimming the end leaves a trimmed start trimmed. *)
Lemma trimStart_trimEnd s : trimStart (trimEnd (trimStart s)) = trimEnd (trimStart s).
Proof.
  unfold trimStart at 1. apply dropWhile_fixed.
  destruct (trimEnd (trimStart s)) as [|c r] eqn:E; [exact I|].
  eapply trim_first_not_space. exact E.
Qed.

Lemma trim_idem s : trim (trim s) = trim s.
Proof.
  unfold trim. rewrite trimStart_trimEnd. apply trimEnd_idem.
Qed.

Lemma trim_incl s c : In c (trim s) -> In c s.
Proof.
  destruct (trim_split s) as (lead & trail & E & _).
  intros H. rewrite E. apply in_or_app. right. apply in_or_app. left. exact H.
Qed.

Lemma split_pieces sep s piece : In piece (split sep s) -> incl piece s /\ ~ In sep piece.
Proof.
  revert piece. induction s as [|c s IH]; intros piece; simpl.
  - intros [<-|[]]. split; [apply incl_refl|intros []].
  - destruct (char_eqb c sep) eqn:E.
    + intros [<-|H].
      * split; [intros x []|intros []].
      * destruct (IH _ H) as [Hi Hn]. split; [|exact Hn].
        apply incl_tl, Hi.
    + destruct (split sep s) as [|p ps] eqn:Es.
      * exfalso. exact (split_not_nil _ _ Es).
      * intros [<-|H].
        -- destruct (IH p (or_introl eq_refl)) as [Hi Hn]. split.
           ++ intros x [<-|Hx]; [left; reflexivity|right; apply Hi, Hx].
           ++ intros [Hc|Hc]; [|exact (Hn Hc)].
              subst sep. rewrite char_eqb_refl in E. discriminate.
        -- destruct (IH piece (or_intror H)) as [Hi Hn]. split; [|exact Hn].
           apply incl_tl, Hi.
Qed.

(** *** The tables of the segmenter *)

Lemma rowCells_clean line cell :
  isTableRow line = true -> In cell (rowCells line) -> cleanCell cell.
Proof.
  intros H Hin.
  apply isTableRow_shape in H as (lead & mid & trail & -> & _ & Hl & Hmid & Ht).
  rewrite rowCells_shape in Hin by assumption.
  apply in_map_iff in Hin as (piece & <- & Hp).
  destruct (split_pieces _ _ _ Hp) as [Hi Hn].
  split; [apply trim_idem|]. split.
  - intros Hc. apply Hn. apply trim_incl, Hc.
  - rewrite forallb_forall in *. intros c Hc. apply Hmid, Hi, trim_incl, Hc.
Qed.

(** Every row of the output is the row of a source line that is a table
    row. *)
Lemma segment_rows T rows row :
  In (Table rows) (segment T) -> In row rows ->
  exists line, In line (split (ch "010") T) /\ isTableRow line = true /\
               row = rowCells line.
Proof.
  intros Hb Hr.
  assert (Hd : In (Row row) (flat_map blockData (segment T))).
  { apply in_flat_map. exists (Table rows). split; [exact Hb|].
    simpl. apply in_map, Hr. }
  unfold segment in Hd. rewrite segmentLines_data in Hd.
  apply in_flat_map in Hd as (line & Hl & Hd).
  exists line. split; [exact Hl|].
  unfold lineData in Hd. destruct (isDiscarded line); [destruct Hd|].
  destruct (isTableRow line); destruct Hd as [Hd|[]]; [|discriminate].
  injection Hd as <-. auto.
Qed.

(** The loop never closes an empty table. *)
Lemma flushTable_tables st :
  Forall (fun b => match b with Text _ => True | Table rows => rows <> [] end)
    (blocks st) ->
  Forall (fun b => match b with Text _ => True | Table rows => rows <> [] end)
    (blocks (flushTable st)).
Proof.
  intros H. unfold flushTable. destruct (currentTable st) as [|r ct] eqn:E; simpl.
  - exact H.
  - apply Forall_app. split; [exact H|]. constructor; [discriminate|constructor].
Qed.

Lemma segmentLine_tables st line :
  Forall (fun b => match b with Text _ => True | Table rows => rows <> [] end)
    (blocks st) ->
  Forall (fun b => match b with Text _ => True | Table rows => rows <> [] end)
    (blocks (segmentLine st line)).
Proof.
  intros H. unfold segmentLine.
  destruct (isTableRow line).
  - destruct (isSeparatorRow line); [exact H|].
    destruct (0 <? length (rowCells line)); exact H.
  - pose proof (flushTable_tables st H) as Hf.
    destruct (negb (str_eqb (trim line) [])); [|exact Hf].
    simpl. apply Forall_app. split; [exact Hf|]. repeat constructor.
Qed.

Lemma segmentLines_tables lines :
  Forall (fun b => match b with Text _ => True | Table rows => rows <> [] end)
    (segmentLines lines).
Proof.
  unfold segmentLines. apply flushTable_tables.
  assert (G : forall st,
    Forall (fun b => match b with Text _ => True | Table rows => rows <> [] end)
      (blocks st) ->
    Forall (fun b => match b with Text _ => True | Table rows => rows <> [] end)
      (blocks (fold_left segmentLine lines st))).
  { induction lines as [|l lines IH]; intros st H; simpl; [exact H|].
    apply IH, segmentLine_tables, H. }
  apply G. constructor.
Qed.

Lemma segment_tables T rows :
  In (Table rows) (segment T) ->
  rows <> [] /\
  (forall row, In row rows ->
     row <> [] /\ forall cell, In cell row -> cleanCell cell).
Proof.
  intros Hb. split.
  - pose proof (segmentLines_tables (split (ch "010") T)) as H.
    rewrite Forall_forall in H. exact (H _ Hb).
  - intros row Hr.
    destruct (segment_rows _ _ _ Hb Hr) as (line & _ & Hrow & ->).
    split; [apply rowCells_not_nil, Hrow|].
    intros cell Hc. eapply rowCells_clean; eassumption.
Qed.

(** X1. Every table the segmenter hands to the grid has a first row for the
    header and no empty row, and each of its cells is trimmed and holds
    neither a pipe nor a line terminator. *)
Theorem tables_are_well_formed (T : str) (rows : list (list str)) :
  In (Table rows) (segment T) ->
  rows <> [] /\
  (forall row, In row rows ->
     row <> [] /\ forall cell, In cell row -> cleanCell cell).
Proof. apply segment_tables. Qed.

Lemma tables_are_well_formed_witness :
  [lit "a"; lit "b"] <> [] /\
  (forall cell, In cell [lit "a"; lit "b"] -> cleanCell cell).
Proof.
  exact (proj2 (@tables_are_well_formed scenario
                  [[lit "a"; lit "b"]; [lit "1"; lit "2"]]
                  (or_intror (or_intror (or_introl eq_refl))))
           [lit "a"; lit "b"] (or_introl eq_refl)).
Defined.

(** *** Rendering *)

Lemma mapM_pure {A B} (f : A -> Outcome B) (g : A -> B) l :
  (forall x, In x l -> f x = Returned (g x)) -> mapM f l = Returned (map g l).
Proof.
  induction l as [|x l IH]; intros H; simpl; [reflexivity|].
  rewrite (H x (or_introl eq_refl)). simpl.
  rewrite IH by (intros y Hy; apply H; right; exact Hy). reflexivity.
Qed.

Lemma mapM_returns {A B} (f : A -> Outcome B) l :
  (forall x, In x l -> exists y, f x = Returned y) ->
  exists ys, mapM f l = Returned ys /\ length ys = length l.
Proof.
  induction l as [|x l IH]; intros H; simpl.
  - exists []. auto.
  - destruct (H x (or_introl eq_refl)) as [y Ey].
    destruct IH as (ys & Eys & El); [intros z Hz; apply H; right; exact Hz|].
    exists (y :: ys). rewrite Ey. simpl. rewrite Eys. simpl. auto.
Qed.

Lemma renderBlock_returns renderToString block :
  wellFormedBlock block -> exists el, renderBlock renderToString block = Returned el.
Proof.
  destruct block as [line|rows]; simpl.
  - intros _. rewrite renderTextWithMath_returns. simpl. eauto.
  - intros [Hne _]. destruct rows as [|r0 rows]; [congruence|].
    rewrite (mapM_pure _ _ _ (fun x _ => renderTextWithMath_returns renderToString x)).
    simpl.
    rewrite (mapM_pure _
               (map (fun line => if is_empty line then None
                                 else Some (map (spanOf renderToString)
                                              (splitCapture mathRe line))))).
    + simpl. eauto.
    + intros row _. apply mapM_pure. intros x _. apply renderTextWithMath_returns.
Qed.

Lemma segment_wellFormed T b : In b (segment T) -> wellFormedBlock b.
Proof.
  destruct b as [line|rows]; simpl; [auto|]. intros H.
  destruct (segment_tables _ _ H) as [Hne Hrows].
  split; [exact Hne|]. apply Forall_forall. intros row Hr. apply Hrows, Hr.
Qed.

Lemma in_firstn {A} n (l : list A) x : In x (firstn n l) -> In x l.
Proof.
  intros H. rewrite <- (firstn_skipn n l). apply in_or_app. left. exact H.
Qed.

(** X2. Whatever the typesetter does, and whatever texts and ticks the
    component has seen since its mount, rendering returns, with one element
    per visible block. *)
Theorem render_never_raises
    (renderToString : str -> Outcome str) (t0 : str) (events : list Event) :
  exists els,
    render renderToString (fold_left handle events (mount t0)) = Returned els /\
    length els = visibleBlockCount (fold_left handle events (mount t0)).
Proof.
  destruct (reachable_Inv t0 events) as [Hi Hs].
  set (c := fold_left handle events (mount t0)) in *.
  unfold render, visibleBlocks.
  destruct (mapM_returns (renderBlock renderToString)
              (firstn (visibleBlockCount c) (contentBlocks c))) as (els & E & L).
  - intros b Hb. apply renderBlock_returns.
    apply (segment_wellFormed (text c)). rewrite <- Hs.
    eapply in_firstn, Hb.
  - exists els. split; [exact E|]. rewrite L, length_firstn.
    pose proof (inv_bound Hi). lia.
Qed.

(** *** The math splitter loses no text *)

Lemma matches_bound pat prev s n : Matches pat prev s n -> n <= length s.
Proof. induction 1; simpl in *; lia. Qed.

Lemma run_bound pat prev s n : run pat prev s = Some n -> n <= length s.
Proof. intros H. eapply matches_bound, run_sound, H. Qed.

Lemma concat_split_from pat s : forall skip cur prev,
  concat (split_from pat skip cur prev s) = rev cur ++ skipn skip s.
Proof.
  induction s as [|c s IH]; intros skip cur prev.
  - simpl. rewrite skipn_nil, app_nil_r. reflexivity.
  - cbn [split_from]. destruct skip as [|k].
    + destruct (run pat prev (c :: s)) as [[|k]|] eqn:E.
      * destruct cur as [|x cur].
        -- rewrite IH. reflexivity.
        -- cbn [concat]. rewrite IH. reflexivity.
      * cbn [concat]. rewrite IH. cbn [rev app].
        change (skipn 0 (c :: s)) with (c :: s).
        rewrite <- (firstn_skipn (S k) (c :: s)) at 2. reflexivity.
      * rewrite IH. cbn [rev skipn]. rewrite <- app_assoc. reflexivity.
    + rewrite IH. reflexivity.
Qed.

(** X3. The parts the renderer works on, put end to end, are the line; so when
    the typesetter fails on every math span the user still reads the whole
    line, the raw spans flagged. *)
Theorem math_split_loses_no_text (line e : str) :
  concat (splitCapture mathRe line) = line /\
  exists spans,
    renderTextWithMath (fun _ => Raised e) line =
      Returned (if is_empty line then None else Some spans) /\
    concat (map spanText spans) = line.
Proof.
  assert (C : concat (splitCapture mathRe line) = line).
  { destruct line as [|c line]; [reflexivity|].
    unfold splitCapture. rewrite concat_split_from. reflexivity. }
  split; [exact C|].
  exists (map (spanOf (fun _ => Raised e)) (splitCapture mathRe line)).
  split; [apply renderTextWithMath_returns|].
  rewrite map_map. rewrite <- C at 2. f_equal.
  rewrite <- (map_id (splitCapture mathRe line)) at 2.
  apply map_ext. intros part. unfold spanOf.
  destruct (isMathPart part); reflexivity.
Qed.

End ViewFacts.

(* ================================================================== *)
(** * More on the local evaluator *)
(* ================================================================== *)

Module LocalFacts.

Import Re ReSpec ReFacts JsFacts Readout ReadoutSpec SegmenterFacts Solver SolverSpec.

Lemma search_one_class p s : forall prev,
  search [Cls p] prev s = None <-> forallb (fun c => negb (p c)) s = true.
Proof.
  induction s as [|c s IH]; intros prev; simpl.
  - tauto.
  - destruct (p c) eqn:E; simpl.
    + split; discriminate.
    + rewrite <- (IH (Some c)).
      destruct (search [Cls p] (Some c) s) as [[i n]|]; split; congruence.
Qed.

(** [/[a-zA-Z]/.test(s)] is false exactly when [s] has no letter. *)
Lemma letter_guard s :
  test letterRe (replaceAll mathNameRe [] s) = negb (passesLetterGuard s).
Proof.
  unfold test, letterRe, passesLetterGuard.
  pose proof (search_one_class (fun c => isLower c || isUpper c)
                (replaceAll mathNameRe [] s) None) as H.
  unfold isLetter.
  destruct (search _ None _); destruct (forallb _ _); try reflexivity.
  - destruct H as [_ H]. discriminate (H eq_refl).
  - destruct H as [H _]. discriminate (H eq_refl).
Qed.

Section AnyHost.

Variable Num : Type.
Variable isNaN isInteger : Num -> bool.
Variable toString toFixed6 : Num -> str.
Variable hostLowerCase : str -> str.

(** X4. [eval] is consulted on nothing but strings that pass the letter guard:
    two hosts whose [eval] agree on those strings give the same local
    result, so no name other than a [Math.] member ever reaches [eval]. *)
Theorem eval_sees_guarded_strings_only
    (eval1 eval2 : str -> Outcome (JsValue Num)) (query : str) :
  (forall s, passesLetterGuard s = true -> eval1 s = eval2 s) ->
  tryLocalScientificEvaluation eval1 isNaN isInteger toString toFixed6
    hostLowerCase query =
  tryLocalScientificEvaluation eval2 isNaN isInteger toString toFixed6
    hostLowerCase query.
Proof.
  intros H. unfold tryLocalScientificEvaluation.
  destruct (negb (test expressionRegex (sanitize hostLowerCase query)));
    [reflexivity|].
  rewrite letter_guard.
  destruct (passesLetterGuard (jsEvalStringOf (sanitize hostLowerCase query))) eqn:G;
    [|reflexivity].
  simpl. rewrite (H _ G). reflexivity.
Qed.

End AnyHost.

Lemma eval_sees_guarded_strings_only_witness :
  tryLocalScientificEvaluation
    (fun s => if passesLetterGuard s then Returned (JsNumber 4) else Raised (lit "ReferenceError"))
    (fun _ => false) (fun _ => true) (fun _ => lit "4") (fun _ => lit "4.000000")
    (fun s => s) (lit "what is 2+2?") =
  tryLocalScientificEvaluation
    (fun _ => Returned (JsNumber 4))
    (fun _ => false) (fun _ => true) (fun _ => lit "4") (fun _ => lit "4.000000")
    (fun s => s) (lit "what is 2+2?").
Proof.
  apply eval_sees_guarded_strings_only.
  intros s H. rewrite H. reflexivity.
Defined.

(** *** How a local answer is read out *)

Lemma in_replace_from pat repl c s : forall skip prev,
  In c (replace_from pat repl skip prev s) -> In c repl \/ In c s.
Proof.
  induction s as [|x s IH]; intros skip prev.
  - destruct skip as [|k]; simpl; [|tauto].
    destruct (run pat prev []) as [[|k]|]; rewrite ?app_nil_r; simpl; tauto.
  - destruct skip as [|k]; cbn [replace_from].
    + destruct (run pat prev (x :: s)) as [[|k]|]; intros H.
      * apply in_app_or in H as [H|[H|H]]; simpl; auto.
        apply IH in H. simpl. tauto.
      * apply in_app_or in H as [H|H]; auto.
        apply IH in H. simpl. tauto.
      * destruct H as [H|H]; simpl; auto. apply IH in H. tauto.
    + intros H. apply IH in H. simpl. tauto.
Qed.

Lemma trim_nil_space s : trim s = [] -> forallb isWhiteSpace s = true.
Proof.
  intros E. destruct (trim_split s) as (lead & trail & Es & Hl & Ht).
  rewrite E in Es. simpl in Es. rewrite Es, forallb_app, Hl, Ht. reflexivity.
Qed.

(** A line whose first code unit is neither white space nor a pipe is a
    text line. *)
Lemma text_line c r :
  isWhiteSpace c = false -> c <> pipe ->
  isTableRow (c :: r) = false /\ isBlank (c :: r) = false.
Proof.
  intros Hw Hp. split.
  - destruct (isTableRow (c :: r)) eqn:E; [|reflexivity].
    rewrite isTableRow_regex in E.
    apply tableRowRe_iff in E as (pre & mid & post & E & Hpre & _).
    destruct pre as [|x pre]; simpl in E; injection E as -> _.
    + congruence.
    + simpl in Hpre. rewrite Hw in Hpre. discriminate.
  - unfold isBlank. destruct (trim (c :: r)) eqn:E; [|reflexivity].
    apply trim_nil_space in E. simpl in E. rewrite Hw in E. discriminate.
Qed.

Lemma segmentLine_text bs line :
  textStart line = true ->
  segmentLine (mkSeg bs []) line = mkSeg (bs ++ [Text line]) [].
Proof.
  destruct line as [|c r]; [discriminate|]. simpl. intros H.
  apply andb_true_iff in H as [Hw Hp].
  apply negb_true_iff in Hw, Hp.
  assert (Hp' : c <> pipe) by (intros ->; rewrite char_eqb_refl in Hp; discriminate).
  destruct (text_line r Hw Hp') as [Hr Hb].
  unfold segmentLine, flushTable. rewrite Hr. simpl.
  unfold isBlank in Hb. rewrite Hb. reflexivity.
Qed.

Lemma segmentLine_empty bs : segmentLine (mkSeg bs []) [] = mkSeg bs [].
Proof. reflexivity. Qed.

Lemma split_join sep pieces :
  pieces <> [] -> Forall (fun p => ~ In sep p) pieces ->
  split sep (join [sep] pieces) = pieces.
Proof.
  induction pieces as [|p ps IH]; intros Hne H; [congruence|].
  inversion H as [|? ? Hp Hps]; subst.
  destruct ps as [|q ps].
  - simpl. apply split_no_sep, Hp.
  - change (join [sep] (p :: q :: ps)) with (p ++ sep :: join [sep] (q :: ps)).
    rewrite split_app, (@split_no_sep sep p Hp), IH by (auto; discriminate).
    reflexivity.
Qed.

(** X5. A local answer whose expression and value hold no line feed is read out
    as nine text blocks: the banner, [GIVEN:], the expression, [STEPS:], the
    three steps, [FINAL ANSWER:], and the value on a line of its own; the
    stylist marks the two headers and the answer marker, not the value. *)
Theorem local_answer_blocks (sanitized formattedResult : str) :
  ~ In lf sanitized -> ~ In lf formattedResult ->
  segment (localContent sanitized formattedResult) =
    [ Text (Quiz.robot ++ lit " Immediate computation via local arithmetic unit.");
      Text (lit "GIVEN:");
      Text (lit "Expression: $" ++ replaceAll (Lit (lit "**")) (lit "^") sanitized
            ++ lit "$");
      Text (lit "STEPS:");
      Text (lit "1. Input parsed by High-Speed Calculation Core.");
      Text (lit "2. Scientific constants and functions normalized.");
      Text (lit "3. Execution of arithmetic sequence successful.");
      Text (lit "FINAL ANSWER:");
      Text (lit "$" ++ formattedResult ++ lit "$") ] /\
  map styleOf [lit "GIVEN:"; lit "STEPS:"; lit "FINAL ANSWER:"] =
    [header; header; answer].
Proof.
  intros Hs Hf. split; [|reflexivity].
  assert (He : ~ In lf (replaceAll (Lit (lit "**")) (lit "^") sanitized)).
  { intros H. apply in_replace_from in H as [H|H]; [|exact (Hs H)].
    revert H. clear. vm_compute. intuition discriminate. }
  unfold localContent, newline.
  set (expr := replaceAll (Lit (lit "**")) (lit "^") sanitized) in *.
  clearbody expr. clear Hs.
  set (lines :=
    [ Quiz.robot ++ lit " Immediate computation via local arithmetic unit."; [];
      lit "GIVEN:"; lit "Expression: $" ++ expr ++ lit "$"; [];
      lit "STEPS:"; lit "1. Input parsed by High-Speed Calculation Core.";
      lit "2. Scientific constants and functions normalized.";
      lit "3. Execution of arithmetic sequence successful."; [];
      lit "FINAL ANSWER:"; lit "$" ++ formattedResult ++ lit "$" ]).
  match goal with |- segment ?content = _ =>
    replace content with (join [lf] lines)
  end.
  2:{ subst lines. unfold lf. cbn [join]. rewrite <- !app_assoc. reflexivity. }
  unfold segment. change (ch "010") with lf.
  rewrite split_join.
  - subst lines. unfold segmentLines. cbn [fold_left].
    rewrite segmentLine_text by reflexivity.
    rewrite segmentLine_empty.
    rewrite segmentLine_text by reflexivity.
    rewrite segmentLine_text by reflexivity.
    rewrite segmentLine_empty.
    rewrite !segmentLine_text by reflexivity.
    rewrite segmentLine_empty.
    rewrite !segmentLine_text by reflexivity.
    reflexivity.
  - subst lines. discriminate.
  - subst lines.
    repeat (constructor;
            [first [ exact (fun H => H)
                   | intros H; repeat (apply in_app_or in H as [H|H]);
                     first [ exact (He H) | exact (Hf H)
                           | revert H; clear; vm_compute; intuition discriminate ] ]|]).
    constructor.
Qed.

Lemma local_answer_blocks_witness :
  length (segment (localContent (lit "2**3") (lit "8"))) = 9.
Proof.
  exact (f_equal (@length _)
           (proj1 (@local_answer_blocks (lit "2**3") (lit "8")
                     ltac:(vm_compute; intuition discriminate)
                     ltac:(vm_compute; intuition discriminate)))).
Defined.

End LocalFacts.

(* ================================================================== *)
(** * The request to the service and its answer *)
(* ================================================================== *)

Module ServiceFacts.

Import Re ReSpec ReFacts JsFacts Readout ReadoutSpec Solver SolverSpec Service.

(** *** The turns of a request *)

Lemma lastTurn_snoc cs c : lastTurn (cs ++ [c]) = Some (turn c).
Proof. unfold lastTurn. rewrite rev_app_distr. reflexivity. Qed.

Lemma alternates_snoc turns a b :
  alternates (turns ++ [a; b]) = alternates (turns ++ [a]) && negb (apiRole_eqb a b).
Proof.
  induction turns as [|x [|y turns] IH].
  - simpl. rewrite andb_true_r. reflexivity.
  - simpl. rewrite !andb_true_r. reflexivity.
  - change ((x :: y :: turns) ++ [a; b]) with (x :: (y :: turns) ++ [a; b]).
    change ((x :: y :: turns) ++ [a]) with (x :: (y :: turns) ++ [a]).
    cbn [alternates app] in *. rewrite IH, andb_assoc. reflexivity.
Qed.

Lemma alternates_prefix turns a :
  alternates (turns ++ [a]) = true -> alternates turns = true.
Proof.
  destruct turns as [|x turns] using rev_ind; [reflexivity|].
  rewrite <- app_assoc. simpl. rewrite alternates_snoc.
  intros H. apply andb_true_iff in H as [H _]. exact H.
Qed.

(** Adding a turn that differs from the last one keeps the alternation. *)
Lemma alternates_push cs c :
  alternates (map turn cs) = true ->
  match lastTurn cs with Some r => apiRole_eqb r (turn c) = false | None => True end ->
  alternates (map turn (cs ++ [c])) = true.
Proof.
  destruct cs as [|x cs] using rev_ind; [reflexivity|].
  rewrite lastTurn_snoc. intros Ha Hl.
  rewrite <- app_assoc, map_app. simpl.
  rewrite alternates_snoc, Hl. rewrite map_app in Ha. simpl in Ha.
  rewrite Ha. reflexivity.
Qed.

Lemma pushTurn_spec cs msg :
  alternates (map turn cs) = true ->
  alternates (map turn (pushTurn cs msg)) = true /\
  length (pushTurn cs msg) <= S (length cs) /\
  (forall c, In c (pushTurn cs msg) ->
     In c cs \/ parts c = [TextPart (content msg)]).
Proof.
  intros Ha. unfold pushTurn.
  set (r := match role msg with user => roleUser | assistant => roleModel end).
  destruct (lastTurn cs) as [r'|] eqn:El.
  - destruct (apiRole_eqb r' r) eqn:E; simpl.
    + split; [exact Ha|]. split; [lia|]. auto.
    + split; [|split].
      * apply alternates_push; [exact Ha|]. rewrite El. exact E.
      * rewrite length_app. simpl. lia.
      * intros c Hc. apply in_app_or in Hc as [Hc|[<-|[]]]; auto.
  - split; [|split].
    + apply alternates_push; [exact Ha|]. rewrite El. exact I.
    + rewrite length_app. simpl. lia.
    + intros c Hc. apply in_app_or in Hc as [Hc|[<-|[]]]; auto.
Qed.

Lemma fold_pushTurn msgs : forall cs,
  alternates (map turn cs) = true ->
  alternates (map turn (fold_left pushTurn msgs cs)) = true /\
  length (fold_left pushTurn msgs cs) <= length msgs + length cs /\
  (forall c, In c (fold_left pushTurn msgs cs) ->
     In c cs \/ exists m, In m msgs /\ parts c = [TextPart (content m)]).
Proof.
  induction msgs as [|m msgs IH]; intros cs Ha; simpl.
  - split; [exact Ha|]. split; [lia|]. auto.
  - destruct (pushTurn_spec cs m Ha) as (Ha' & Hl' & Hp').
    destruct (IH _ Ha') as (Ha'' & Hl'' & Hp'').
    split; [exact Ha''|]. split; [lia|].
    intros c Hc. destruct (Hp'' c Hc) as [H|(m' & Hm' & E)].
    + destruct (Hp' c H) as [H'|E]; [auto|]. right. exists m. auto.
    + right. exists m'. auto.
Qed.

Lemma lastFour_length {A} (l : list A) : length (lastFour l) <= 4.
Proof. unfold lastFour. rewrite length_skipn. lia. Qed.

Lemma lastFour_incl {A} (l : list A) x : In x (lastFour l) -> In x l.
Proof.
  unfold lastFour. intros H.
  rewrite <- (firstn_skipn (length l - 4) l). apply in_or_app. right. exact H.
Qed.

(** X6. The request is made of at most four turns taken from the last four
    messages, in alternation, and ends with the user's turn that carries the
    query (or the stock greeting when the query is empty) and the image. *)
Theorem request_turns_alternate
    (query : str) (history : list Message) (image : option (str * str)) :
  exists before,
    buildContents query history image =
      before ++ [mkContent roleUser (userPartsOf query image)] /\
    alternates (map turn (buildContents query history image)) = true /\
    length before <= 4 /\
    (forall c, In c before ->
       exists m, In m history /\ parts c = [TextPart (content m)]).
Proof.
  unfold buildContents.
  destruct (fold_pushTurn (lastFour history) [] eq_refl) as (Ha & Hl & Hp).
  pose proof (lastFour_length history) as H4.
  set (cs := fold_left pushTurn (lastFour history) []) in *.
  assert (Hsrc : forall c, In c cs ->
            exists m, In m history /\ parts c = [TextPart (content m)]).
  { intros c Hc. destruct (Hp c Hc) as [[]|(m & Hm & E)].
    exists m. split; [apply lastFour_incl, Hm|exact E]. }
  simpl in Hl. rewrite Nat.add_0_r in Hl.
  destruct cs as [|x cs] using rev_ind.
  - exists []. simpl. repeat split; auto; intros c [].
  - clear IHcs. rewrite lastTurn_snoc.
    destruct (turn x) eqn:Ex.
    + rewrite removelast_last. exists cs.
      split; [reflexivity|]. rewrite length_app in Hl. simpl in Hl.
      split; [|split; [lia|]].
      * rewrite map_app in Ha. simpl in Ha. rewrite Ex in Ha.
        apply alternates_push.
        -- eapply alternates_prefix, Ha.
        -- destruct cs as [|y cs] using rev_ind; [exact I|].
           rewrite lastTurn_snoc. rewrite map_app in Ha. simpl in Ha.
           rewrite <- app_assoc in Ha. simpl in Ha.
           rewrite alternates_snoc in Ha.
           apply andb_true_iff in Ha as [_ Ha].
           apply negb_true_iff in Ha. exact Ha.
      * intros c Hc. apply Hsrc, in_or_app. left. exact Hc.
    + exists (cs ++ [x]). split; [reflexivity|].
      split; [|split; [lia|exact Hsrc]].
      apply alternates_push; [exact Ha|].
      rewrite lastTurn_snoc, Ex. reflexivity.
Qed.

(** *** Reading the answer of the service *)

Lemma prevAfter_app prev a b : prevAfter prev (a ++ b) = prevAfter (prevAfter prev a) b.
Proof. unfold prevAfter. apply fold_left_app. Qed.

(** A literal at the head of a pattern reads itself. *)
Lemma run_lit l pat : forall prev s,
  run (Lit l ++ pat) prev (l ++ s) =
  option_map (Nat.add (length l)) (run pat (prevAfter prev l) s).
Proof.
  induction l as [|c l IH]; intros prev s.
  - simpl. destruct (run pat prev s); reflexivity.
  - cbn [Lit map app run]. rewrite char_eqb_refl.
    change (map (fun c0 => Cls (char_eqb c0)) l) with (Lit l).
    rewrite IH. simpl. destruct (run pat _ s); reflexivity.
Qed.

Lemma run_lit_other c l pat prev x r :
  x <> c -> run (Lit (c :: l) ++ pat) prev (x :: r) = None.
Proof.
  intros H. cbn [Lit map app run].
  destruct (char_eqb c x) eqn:E; [|reflexivity].
  apply char_eqb_eq in E. congruence.
Qed.

Lemma run_lit_nil c l pat prev : run (Lit (c :: l) ++ pat) prev [] = None.
Proof. reflexivity. Qed.

(** The leftmost match is not before the first occurrence of the first
    code unit of the literal. *)
Lemma search_lit_skip c l pat pre : forall prev s,
  ~ In c pre ->
  search (Lit (c :: l) ++ pat) prev (pre ++ s) =
  match search (Lit (c :: l) ++ pat) (prevAfter prev pre) s with
  | Some (i, n) => Some (length pre + i, n)
  | None => None
  end.
Proof.
  induction pre as [|x pre IH]; intros prev s H.
  - simpl. destruct (search _ prev s) as [[i n]|]; reflexivity.
  - cbn [app search].
    rewrite run_lit_other by (intros ->; apply H; left; reflexivity).
    rewrite IH by (intros Hin; apply H; right; exact Hin).
    simpl. destruct (search _ _ s) as [[i n]|]; reflexivity.
Qed.

(** The lazy star stops at the first code unit that closes the group. *)
Lemma run_lazy_until p q mid : forall prev stop rest,
  forallb p mid = true -> forallb (fun c => negb (q c)) mid = true ->
  q stop = true ->
  run [LazyStar p; Cls q] prev (mid ++ stop :: rest) = Some (S (length mid)).
Proof.
  induction mid as [|c mid IH]; intros prev stop rest Hp Hq Hs;
    rewrite run_lazy.
  - cbn [app run]. rewrite Hs. reflexivity.
  - simpl in Hp, Hq.
    apply andb_true_iff in Hp as [Hc Hp]. apply andb_true_iff in Hq as [Hn Hq].
    apply negb_true_iff in Hn.
    cbn [app run]. rewrite Hn, Hc. rewrite IH by assumption. reflexivity.
Qed.

Lemma not_in_forallb (stop : char) mid :
  ~ In stop mid -> forallb (fun c => negb (char_eqb c stop)) mid = true.
Proof.
  intros H. apply forallb_forall. intros c Hc. apply negb_true_iff.
  destruct (char_eqb c stop) eqn:E; [|reflexivity].
  apply char_eqb_eq in E. subst. contradiction.
Qed.

Lemma dot_no_lf mid : forallb dot mid = true -> ~ In lf mid.
Proof.
  intros H Hin. rewrite forallb_forall in H. apply H in Hin. discriminate.
Qed.

(** One group between a literal and its closing code unit, matched where
    the string begins. *)
Lemma group_at_start prefix (stop : ascii) mid rest prev :
  forallb dot mid = true -> ~ In (ch stop) mid ->
  run (Lit prefix ++ [LazyStar dot; Cls (isChar stop)]) prev
    (prefix ++ mid ++ ch stop :: rest)
  = Some (length prefix + S (length mid)).
Proof.
  intros Hd Hs. rewrite run_lit.
  rewrite (run_lazy_until dot (isChar stop)); auto.
  - apply not_in_forallb, Hs.
  - apply char_eqb_refl.
Qed.

Lemma search_at_start pat prev s n :
  run pat prev s = Some n -> search pat prev s = Some (0, n).
Proof. intros H. destruct s; simpl; rewrite H; reflexivity. Qed.

Lemma skipn_app_exact {A} (a b : list A) n :
  n = length a -> skipn n (a ++ b) = b.
Proof.
  intros ->. rewrite skipn_app, skipn_all, Nat.sub_diag. reflexivity.
Qed.

Lemma firstn_app_exact {A} (a b : list A) n :
  n = length a -> firstn n (a ++ b) = a.
Proof.
  intros ->. rewrite firstn_app, firstn_all, Nat.sub_diag. simpl.
  apply app_nil_r.
Qed.


(** X7. An answer made of a topic line, text, a diagram tag and more text is
    read back as its parts: the topic trimmed, the prompt as it is, and the
    text around the tag, joined and trimmed, as the content. *)
Theorem service_answer_is_parsed
    (T a P b : str) (image : option (str * str)) :
  forallb dot T = true -> ~ In bracket T -> ~ In bracket a ->
  forallb dot P = true -> ~ In (ch "]") P ->
  parseResponse
    (topicPrefix ++ T ++ lf :: a ++ diagramPrefix ++ P ++ ch "]" :: b) image
  = mkReply (Some (trim (a ++ b))) (Some (trim T)) (Some P) None None.
Proof.
  intros HT HbT Hba HP HbP.
  set (text := topicPrefix ++ T ++ lf :: a ++ diagramPrefix ++ P ++ ch "]" :: b).
  assert (Rt : search topicRe None text = Some (0, length topicPrefix + S (length T))).
  { unfold topicRe, text. apply search_at_start.
    change lf with (ch "010").
    apply group_at_start; auto. apply dot_no_lf, HT. }
  assert (Rd : forall prev pre, ~ In bracket pre ->
            search diagramRe prev (pre ++ diagramPrefix ++ P ++ ch "]" :: b)
            = Some (length pre + 0, length diagramPrefix + S (length P))).
  { intros prev pre Hpre. unfold diagramRe.
    change diagramPrefix with (bracket :: lit "DIAGRAM_PROMPT: ") at 1.
    rewrite search_lit_skip by exact Hpre.
    change (bracket :: lit "DIAGRAM_PROMPT: ") with diagramPrefix.
    rewrite (@search_at_start _ _ _ (length diagramPrefix + S (length P)));
      [reflexivity|].
    apply group_at_start; auto. }
  assert (Hpre : ~ In bracket (topicPrefix ++ T ++ lf :: a)).
  { intros H. apply in_app_or in H as [H|H].
    - revert H. clear. vm_compute. intuition discriminate.
    - apply in_app_or in H as [H|[H|H]]; auto. discriminate. }
  assert (Rd' : search diagramRe None text
                = Some (length (topicPrefix ++ T ++ lf :: a) + 0,
                        length diagramPrefix + S (length P))).
  { rewrite <- (Rd None _ Hpre). f_equal.
    unfold text. rewrite <- !app_assoc. reflexivity. }
  unfold parseResponse, matchGroup, replaceFirst. rewrite Rt, Rd'.
  assert (E1 : skipn (0 + (length topicPrefix + S (length T))) text
               = a ++ diagramPrefix ++ P ++ ch "]" :: b).
  { replace text with ((topicPrefix ++ T ++ [lf]) ++ a ++ diagramPrefix ++ P ++ ch "]" :: b)
      by (unfold text; rewrite <- !app_assoc; reflexivity).
    apply skipn_app_exact. rewrite !length_app. simpl. lia. }
  cbn [firstn app]. rewrite E1, (Rd None a Hba).
  f_equal.
  - f_equal. f_equal. rewrite (firstn_app_exact a) by lia.
    replace (a ++ diagramPrefix ++ P ++ ch "]" :: b)
      with ((a ++ diagramPrefix ++ P ++ [ch "]"]) ++ b)
      by (rewrite <- !app_assoc; reflexivity).
    rewrite skipn_app_exact; [reflexivity|]. rewrite !length_app. simpl. lia.
  - f_equal. f_equal.
    replace text with (topicPrefix ++ T ++ lf :: a ++ diagramPrefix ++ P ++ ch "]" :: b)
      by reflexivity.
    rewrite (skipn_app_exact topicPrefix) by lia.
    apply firstn_app_exact. lia.
  - f_equal.
    replace text with ((topicPrefix ++ T ++ lf :: a) ++ diagramPrefix ++ P ++ ch "]" :: b)
      by (unfold text; rewrite <- !app_assoc; reflexivity).
    replace (length (topicPrefix ++ T ++ lf :: a) + 0 + length diagramPrefix)
      with (length diagramPrefix + length (topicPrefix ++ T ++ lf :: a)) by lia.
    rewrite <- skipn_skipn, (skipn_app_exact (topicPrefix ++ T ++ lf :: a)) by lia.
    rewrite (skipn_app_exact diagramPrefix) by lia.
    apply firstn_app_exact. lia.
Qed.

Lemma service_answer_is_parsed_witness :
  parseResponse
    (topicPrefix ++ lit " Algebra " ++ lf :: lit "x = 2 " ++ diagramPrefix
     ++ lit "parabola" ++ ch "]" :: []) None
  = mkReply (Some (trim (lit "x = 2 " ++ []))) (Some (trim (lit " Algebra ")))
      (Some (lit "parabola")) None None.
Proof.
  exact (@service_answer_is_parsed (lit " Algebra ") (lit "x = 2 ")
           (lit "parabola") [] None eq_refl
           ltac:(vm_compute; intuition discriminate)
           ltac:(vm_compute; intuition discriminate)
           eq_refl
           ltac:(vm_compute; intuition discriminate)).
Defined.

Lemma run_lit_prefix l pat : forall prev s n,
  run (Lit l ++ pat) prev s = Some n -> startsWith s l = true.
Proof.
  induction l as [|c l IH]; intros prev s n H; [reflexivity|].
  cbn [Lit map app run] in H. destruct s as [|x s]; [discriminate|].
  destruct (char_eqb c x) eqn:E; [|discriminate].
  apply char_eqb_eq in E. subst x. simpl. rewrite char_eqb_refl. simpl.
  change (map (fun c0 => Cls (char_eqb c0)) l) with (Lit l) in H.
  destruct (run (Lit l ++ pat) (Some c) s) eqn:R; [|discriminate].
  eapply IH, R.
Qed.

(** No match where the literal does not occur. *)
Lemma search_lit_absent l pat s : forall prev,
  includes s l = false -> search (Lit l ++ pat) prev s = None.
Proof.
  induction s as [|x s IH]; intros prev H; simpl in H;
    apply orb_false_iff in H as [Hs Hi]; cbn [search].
  - destruct (run (Lit l ++ pat) prev []) eqn:R; [|reflexivity].
    apply run_lit_prefix in R. congruence.
  - destruct (run (Lit l ++ pat) prev (x :: s)) eqn:R.
    + apply run_lit_prefix in R. congruence.
    + rewrite IH by exact Hi. reflexivity.
Qed.

(** X8. Without a topic line the topic is chosen by the presence of an image,
    and the content is the text without its first diagram tag, trimmed. *)
Theorem topic_defaults_by_image (text : str) (image : option (str * str)) :
  includes text topicPrefix = false ->
  replyTopic (parseResponse text image) =
    Some (match image with
          | Some _ => lit "Visual Analysis"
          | None => lit "Computation"
          end) /\
  replyContent (parseResponse text image) =
    Some (trim (replaceFirst diagramRe [] text)).
Proof.
  intros H.
  assert (S : search topicRe None text = None)
    by (apply search_lit_absent, H).
  unfold parseResponse, matchGroup. cbn [replyTopic replyContent].
  unfold replaceFirst at 2. rewrite S. split; reflexivity.
Qed.

Lemma topic_defaults_by_image_witness :
  replyTopic (parseResponse (lit "x = 2") (Some (lit "iVBOR", lit "image/png")))
  = Some (lit "Visual Analysis").
Proof.
  exact (proj1 (@topic_defaults_by_image (lit "x = 2")
                  (Some (lit "iVBOR", lit "image/png")) eq_refl)).
Defined.

(** *** Failures of the service *)

Section AnyHost.

Variable hostLowerCase : str -> str.

Lemma toLowerCase_basic s :
  isBasicLatin s = true -> toLowerCase hostLowerCase s = map toLowerUnit s.
Proof. unfold toLowerCase, isBasicLatin. intros ->. reflexivity. Qed.

(** X9. An error whose text mentions [fetch] or [network], in any mix of upper
    and lower case and whatever else it mentions, is a network error. *)
Theorem network_errors_are_recognised (before word after : str) :
  isBasicLatin (before ++ word ++ after) = true ->
  map toLowerUnit word = lit "fetch" \/ map toLowerUnit word = lit "network" ->
  classifyError hostLowerCase (before ++ word ++ after)
  = mkReply None None None (Some (lit "NETWORK_ERROR")) (Some networkMessage).
Proof.
  intros Hb Hw. unfold classifyError.
  rewrite toLowerCase_basic by exact Hb. rewrite !map_app.
  assert (H : includes (map toLowerUnit before ++ map toLowerUnit word
                        ++ map toLowerUnit after) (lit "fetch")
              || includes (map toLowerUnit before ++ map toLowerUnit word
                           ++ map toLowerUnit after) (lit "network") = true).
  { apply orb_true_iff. destruct Hw as [-> | ->]; [left|right];
      apply includes_iff; eauto. }
  rewrite H. reflexivity.
Qed.

Lemma classifyError_isFailure thrown : isFailure (classifyError hostLowerCase thrown).
Proof.
  unfold classifyError, isFailure, failures.
  repeat match goal with
  | |- context [if ?b then _ else _] => destruct b
  end; simpl; repeat split; eauto 10.
Qed.

Variable generateContent : list Content -> Outcome (option str).

(** X10. The call to the service always answers: with the parsed text when the
    service returns a non-empty one, and otherwise with one of the five
    failures, an empty or missing text being a general failure. *)
Theorem service_always_answers (contents : list Content) (image : option (str * str)) :
  exists r,
    askService hostLowerCase generateContent contents image = Returned r /\
    match generateContent contents with
    | Returned (Some (c :: text)) => r = parseResponse (c :: text) image
    | Returned _ =>
        r = mkReply None None None (Some (lit "GENERAL_FAILURE")) (Some generalMessage)
    | Raised thrown => r = classifyError hostLowerCase thrown /\ isFailure r
    end.
Proof.
  unfold askService. destruct (generateContent contents) as [[[|c text]|]|thrown];
    simpl; eexists; split; try reflexivity.
  split; [reflexivity|apply classifyError_isFailure].
Qed.

End AnyHost.

Lemma network_errors_are_recognised_witness :
  classifyError (fun s => s)
    (lit "TypeError: " ++ lit "Failed to FETCH" ++ lit " (quota)")
  = mkReply None None None (Some (lit "NETWORK_ERROR")) (Some networkMessage).
Proof.
  exact (@network_errors_are_recognised (fun s => s) (lit "TypeError: Failed to ")
           (lit "FETCH") (lit " (quota)") eq_refl (or_introl eq_refl)).
Defined.

End ServiceFacts.

(* ================================================================== *)
(** * Sending a problem *)
(* ================================================================== *)

Module ChatFacts.

Import JsFacts Readout Solver Service ServiceFacts Chat.

(** *** The diagram *)

(** X11. Once the client exists, [generateDiagram] returns whatever the service
    does: nothing when the call throws or no part has inline data, and
    otherwise the data URI of the first part that has some. *)
Theorem diagram_failures_are_absorbed
    (generateImage : str -> Outcome (list (option str))) (prompt : str) :
  exists url,
    generateDiagram (Returned tt) generateImage prompt = Returned url /\
    match generateImage prompt with
    | Raised _ => url = None
    | Returned parts =>
        match url with
        | None => Forall (fun p => p = None) parts
        | Some uri =>
            exists skipped data rest,
              parts = skipped ++ Some data :: rest /\
              Forall (fun p => p = None) skipped /\
              uri = dataUriPrefix ++ data
        end
    end.
Proof.
  unfold generateDiagram. simpl. destruct (generateImage prompt) as [parts|e]; simpl.
  - exists (firstInlineData parts). split; [reflexivity|].
    induction parts as [|[data|] parts IH]; simpl.
    + constructor.
    + exists [], data, parts. auto.
    + destruct (firstInlineData parts) as [uri|].
      * destruct IH as (skipped & data & rest & -> & Hs & ->).
        exists (None :: skipped), data, rest. auto.
      * constructor; auto.
  - exists None. auto.
Qed.

(** *** One send *)

Section AnySend.

Variable solveMathProblem :
  str -> list Message -> option (str * str) -> Outcome Reply.
Variable generateDiagram : str -> Outcome (option str).
Variable inherited : str -> bool.

Lemma said_attachDiagram target url m : said (attachDiagram target url m) = said m.
Proof. unfold attachDiagram. destruct (id m =? target); reflexivity. Qed.

Lemma diagramStep_keeps clock result st st' :
  diagramStep generateDiagram clock result st = Returned st' ->
  map said (messages st') = map said (messages st) /\
  inputValue st' = inputValue st /\ selectedImage st' = selectedImage st /\
  savedProblems st' = savedProblems st /\ userStats st' = userStats st.
Proof.
  unfold diagramStep. destruct (truthy (diagramPrompt result)).
  - destruct (generateDiagram _) as [url|e]; simpl; [|discriminate].
    intros H. injection H as <-. simpl. rewrite map_map.
    split; [|auto]. apply map_ext. intros m. apply said_attachDiagram.
  - intros H. injection H as <-. auto.
Qed.

Lemma saveStep_keeps clock input result st :
  messages (saveStep inherited clock input result st) = messages st /\
  inputValue (saveStep inherited clock input result st) = inputValue st /\
  selectedImage (saveStep inherited clock input result st) = selectedImage st.
Proof.
  unfold saveStep.
  destruct (truthy (replyTopic result) && negb (truthy (error result))); auto.
Qed.

(** X12. A send is refused, and changes nothing, when there is neither text nor
    image or when a request is under way.  Otherwise the input and the image
    are cleared, the thinking flag ends false, and the conversation grows at
    its end only, none of the messages before being dropped, reordered or
    reworded: by the user's message and then the answer, or the protocol
    error, or both when the diagram call throws after the answer. *)
Theorem send_only_appends (clock : Clock) (st : State) :
  let st' := handleSend solveMathProblem generateDiagram inherited clock st in
  if refused st then st' = st
  else
    inputValue st' = [] /\ selectedImage st' = None /\ isThinking st' = false /\
    exists tail,
      map said (messages st') =
        map said (messages st)
        ++ (userId clock, user,
            if is_empty (inputValue st) then stockInput else inputValue st)
           :: tail /\
      (length tail = 1 \/
       length tail = 2 /\
       nth_error tail 1 = Some (errorId clock, assistant, protocolError)) /\
      Forall (fun m => snd (fst m) = assistant) tail.
Proof.
  intros st'. subst st'. unfold handleSend. fold (refused st).
  destruct (refused st); [reflexivity|].
  set (userMsg := mkMessage (userId clock) user _ _ _ _ _ _ _).
  destruct (solveMathProblem _ _ _) as [result|e].
  - cbn zeta.
    destruct (diagramStep generateDiagram clock result _) as [st3|e] eqn:D.
    + apply diagramStep_keeps in D as (Dm & Di & Ds & _ & _).
      destruct (saveStep_keeps clock (inputValue st) result st3) as (Sm & Si & Ss).
      cbn [inputValue selectedImage isThinking messages].
      rewrite Sm, Si, Ss, Dm, Di, Ds. cbn [appendMessage messages inputValue selectedImage].
      repeat split.
      exists [said (answerOf clock result)].
      rewrite !map_app, <- app_assoc. repeat split; auto.
    + cbn [inputValue selectedImage isThinking messages reportProtocolError
           appendMessage].
      repeat split.
      exists [said (answerOf clock result);
              (errorId clock, assistant, protocolError)].
      rewrite !map_app, <- !app_assoc. repeat split; auto.
  - cbn [inputValue selectedImage isThinking messages reportProtocolError].
    repeat split.
    exists [(errorId clock, assistant, protocolError)].
    rewrite !map_app, <- !app_assoc. repeat split; auto.
Qed.

(** *** A session *)












End AnySend.

(** *** A send that the service fails *)

Section AnyHost.

Variable Num : Type.
Variable eval : str -> Outcome (JsValue Num).
Variable isNaN isInteger : Num -> bool.
Variable toString toFixed6 : Num -> str.
Variable hostLowerCase : str -> str.
Variable generateContent : list Content -> Outcome (option str).
Variable generateDiagram : str -> Outcome (option str).
Variable inherited : str -> bool.

(** X14. When a send goes to the service and the call throws, the chat shows,
    after the user's message, one of the five failure notices as an
    assistant message flagged as an error; nothing is saved, the statistics
    do not move and the thinking flag is cleared. *)
Theorem service_failure_is_shown (clock : Clock) (st : State) (thrown : str) :
  refused st = false ->
  solveMathProblem eval isNaN isInteger toString toFixed6 hostLowerCase
    (if is_empty (inputValue st) then stockInput else inputValue st)
    (option_map (fun i => (base64 i, mimeType i)) (selectedImage st))
  = SentToService (if is_empty (inputValue st) then stockInput else inputValue st) ->
  (forall contents, generateContent contents = Raised thrown) ->
  let st' :=
    handleSend
      (solve eval isNaN isInteger toString toFixed6 hostLowerCase
         (Returned tt) generateContent)
      generateDiagram inherited clock st in
  exists kind notice,
    In (kind, notice) failures /\
    messages st' =
      messages st
      ++ [ mkMessage (userId clock) user
             (if is_empty (inputValue st) then stockInput else inputValue st)
             (userTime clock) None None
             (option_map preview (selectedImage st)) None None;
           mkMessage (assistantBase clock + 1) assistant notice
             (assistantTime clock) None None None (Some false) (Some true) ] /\
    savedProblems st' = savedProblems st /\ userStats st' = userStats st /\
    isThinking st' = false.
Proof.
  intros Hr Hroute Hfail st'. subst st'. unfold handleSend. fold (refused st).
  rewrite Hr. cbn [content]. unfold solve. rewrite Hroute.
  cbn [bind]. unfold askService. rewrite Hfail. cbn [bind tryCatch].
  assert (K : exists kind notice c rest,
            In (kind, notice) failures /\ notice = c :: rest /\
            classifyError hostLowerCase thrown
            = mkReply None None None (Some kind) (Some notice) /\
            truthy (Some kind) = true).
  { unfold classifyError, failures.
    repeat match goal with
    | |- context [if ?b then _ else _] => destruct b
    end; do 4 eexists; (split; [|split; [|split]]);
      try reflexivity; simpl; auto 10. }
  destruct K as (kind & notice & c & rest & Hin & -> & -> & Ht).
  exists kind, (c :: rest). split; [exact Hin|].
  unfold diagramStep, saveStep, answerOf. cbn [diagramPrompt replyTopic truthy andb].
  cbn [appendMessage messages savedProblems userStats isThinking inputValue
       selectedImage replyContent message error orElse].
  rewrite Ht. rewrite <- app_assoc. auto.
Qed.

End AnyHost.

Lemma service_failure_is_shown_witness :
  exists kind notice,
    In (kind, notice) failures /\
    messages failedSend =
      messages asking
      ++ [ mkMessage 1700 user (lit "what is the derivative of x^2") 1700
             None None None None None;
           mkMessage 1801 assistant notice 1800 None None None
             (Some false) (Some true) ] /\
    savedProblems failedSend = [] /\
    userStats failedSend = mkStats 0 0 0 [] [] /\
    isThinking failedSend = false.
Proof.
  exact (@service_failure_is_shown nat (fun _ => Returned (JsNumber 0))
           (fun _ => false) (fun _ => true) (fun _ => lit "0")
           (fun _ => lit "0.000000") (fun s => s)
           (fun _ => Raised (lit "TypeError: Failed to fetch"))
           (fun _ => Returned None) (fun _ => false) downClock asking
           (lit "TypeError: Failed to fetch") eq_refl eq_refl
           (fun _ => eq_refl)).
Defined.

End ChatFacts.

(* ================================================================== *)
(** * Playing a quiz *)
(* ================================================================== *)

Module QuizPlayFacts.

Import JsFacts Readout Quiz QuizPlay.






Section AnyQuiz.

Variable generateQuiz : str -> nat -> Outcome Quiz.Quiz.






End AnyQuiz.


(** *** The score *)

Lemma scoreFrom_bound questions answers : forall idx correct,
  idx + length answers <= length questions ->
  exists n,
    scoreFrom questions idx answers correct = Returned n /\
    correct <= n <= correct + length (filter answered answers).
Proof.
  induction answers as [|[ans|] answers IH]; intros idx correct H; simpl in *.
  - exists correct. split; [reflexivity|lia].
  - destruct (nth_error questions idx) as [q|] eqn:E.
    + destruct (IH (S idx) (if ans =? correctAnswer q then correct + 1 else correct))
        as (n & En & Hn); [lia|].
      exists n. split; [exact En|]. destruct (ans =? correctAnswer q); lia.
    + apply nth_error_None in E. lia.
  - destruct (IH (S idx) correct) as (n & En & Hn); [lia|].
    exists n. split; [exact En|]. lia.
Qed.

(** X17. When the active quiz has a question for every answer slot, the score is
    computed without a throw and is at most the number of answers given. *)
Theorem score_counts_given_answers (a : App) (quiz : Quiz.Quiz) :
  activeQuiz a = Some quiz ->
  length (quizAnswers a) <= length (questions quiz) ->
  exists n,
    calculateCurrentScore a = Returned n /\
    n <= length (filter answered (quizAnswers a)) <= length (quizAnswers a).
Proof.
  intros Ha H. unfold calculateCurrentScore. rewrite Ha.
  destruct (@scoreFrom_bound (questions quiz) (quizAnswers a) 0 0 H) as (n & En & Hn).
  exists n. split; [exact En|]. split; [lia|apply filter_length_le].
Qed.

Lemma score_counts_given_answers_witness :
  exists n,
    calculateCurrentScore
      (chooseOption 1
         (startQuiz (fun _ _ => Returned sampleQuiz) (lit "Calculus") None
            initialApp)) = Returned n /\
    n <= 1 <= 10.
Proof.
  exact (@score_counts_given_answers
           (chooseOption 1
              (startQuiz (fun _ _ => Returned sampleQuiz) (lit "Calculus") None
                 initialApp))
           sampleQuiz eq_refl (le_n 10)).
Defined.

(** A missing question makes the score throw as soon as its slot is
    answered. *)
Example score_throws_without_question :
  calculateCurrentScore
    (chooseOption 0
       (startQuiz (fun _ _ => Returned (mkQuiz [] [] 1 [])) (lit "Calculus") None
          initialApp))
  = Raised (lit "TypeError").
Proof. reflexivity. Qed.

End QuizPlayFacts.
